(** * CashSight (RunwayRadar): a shallow embedding of [app.py]

    The script is one straight-line pandas pipeline.  Each pipeline stage is
    embedded as the function that computes the variable of the same name in
    the script ([signed_amount], [start_date], [date_range], [daily_net],
    [forecast_df], [risk_days], [top_expense_days], [recurring_records],
    [late_stats], ...).

    Conventions of the model:
    - a pandas timestamp holding a calendar date is its day number, a [Z];
      a [Timedelta(days=n)] is the integer [n];
    - a numeric cell is an exact rational ([Q]); the rounding error of
      binary floating point is not modelled, so equalities between computed
      amounts are stated with [==] on [Q];
    - a string cell is a [string] of bytes; [str.lower] is ASCII
      lower-casing.  The only comparison the script makes after lower-casing
      is against the ASCII word [expense], and no non-ASCII code point
      lower-cases to one of its letters, so bytes above 127 can stay as they
      are;
    - a missing cell (NaN) of the optional [client_or_vendor] column and a
      blank [paid_date] are [None].

    The amounts of a real run are machine numbers (float64, or int64 when
    every amount is a whole number) and the balance is always a float64.
    Module [Machine] embeds the forecast lines once more over the
    arithmetic of the amount column, with binary64 for the balance; the
    statements about exact sums and balances are made there. *)

From Stdlib Require Import ZArith QArith Qabs Qround Lqa Lia List Bool Ascii String Sorting.Sorted.
From Stdlib Require Import Floats.PrimFloat Floats.FloatOps Floats.SpecFloat.
From stdpp Require Import base option list sorting gmap strings.

Local Open Scope Z_scope.
Local Open Scope Q_scope.

(** ** Strings: [str.lower] *)

Definition lower_ascii (c : ascii) : ascii :=
  let n := N_of_ascii c in
  if ((65 <=? n) && (n <=? 90))%N then ascii_of_N (n + 32) else c.

Fixpoint lower (s : string) : string :=
  match s with
  | EmptyString => EmptyString
  | String c s' => String (lower_ascii c) (lower s')
  end.

(** ** Transactions ([df]) *)

Record Transaction := mkTransaction {
  tx_date : Z;                          (* df["date"] after pd.to_datetime *)
  tx_type : string;                     (* df["type"] *)
  tx_amount : Q;                        (* df["amount"] *)
  tx_client_or_vendor : option string   (* df["client_or_vendor"], NaN = None *)
}.

(** [required_cols.issubset(df.columns)] and its invoice twin. *)
Definition issubset (required columns : list string) : bool :=
  forallb (fun c => existsb (String.eqb c) columns) required.

Definition required_cols : list string :=
  ["date"; "type"; "amount"]%string.

(** Lines 76-79: the row-wise lambda. *)
Definition signed_amount (row : Transaction) : Q :=
  if String.eqb (lower (tx_type row)) "expense"
  then - tx_amount row
  else tx_amount row.

(** ** Numeric helpers *)

(** [x < y] on cells, as a boolean. *)
Definition Qltb (x y : Q) : bool := negb (Qle_bool y x).

(** [Series.sum]: accumulate from [0] in row order. *)
Definition Qsum (l : list Q) : Q := fold_left Qplus l 0.

(** [Series.cumsum]: the first entry is the first element itself. *)
Fixpoint cumsum_from (acc : Q) (l : list Q) : list Q :=
  match l with
  | [] => []
  | x :: xs => (acc + x) :: cumsum_from (acc + x) xs
  end.

Definition cumsum (l : list Q) : list Q :=
  match l with
  | [] => []
  | x :: xs => x :: cumsum_from x xs
  end.

(** ** The 90-day forecast (lines 82-89) *)

(** [df["date"].min()]; on an empty frame pandas yields NaT and the
    following [date_range] raises, hence [None]. *)
Definition start_date (df : list Transaction) : option Z :=
  match df with
  | [] => None
  | r :: rs => Some (fold_left Z.min (map tx_date rs) (tx_date r))
  end.

Definition end_date (start : Z) : Z := (start + 89)%Z.

(** [pd.date_range(start, stop, freq="D")]: every day from [start] to
    [stop] inclusive. *)
Definition date_range (start stop : Z) : list Z :=
  map (fun i => (start + Z.of_nat i)%Z) (seq 0 (Z.to_nat (stop - start + 1))).

(** [df.groupby("date")["signed_amount"].sum()]: a series indexed by the
    distinct dates of the ledger. *)
Definition groupby_date_sum (df : list Transaction) : gmap Z Q :=
  fold_left
    (fun acc row =>
       <[tx_date row := default 0 (acc !! tx_date row) + signed_amount row]> acc)
    df ∅.

(** [Series.reindex(index, fill_value=fill)]. *)
Definition reindex (s : gmap Z Q) (index : list Z) (fill : Q) : list Q :=
  map (fun d => default fill (s !! d)) index.

Definition daily_net (df : list Transaction) (index : list Z) : list Q :=
  reindex (groupby_date_sum df) index 0.

Record ForecastDay := mkForecastDay {
  fd_date : Z;
  fd_daily_net : Q;
  fd_balance : Q
}.

(** Assemble the three columns into rows. *)
Definition frame (dates : list Z) (nets balances : list Q) : list ForecastDay :=
  zip_with (fun d nb => mkForecastDay d (fst nb) (snd nb)) dates (zip nets balances).

Definition forecast_df (starting_balance : Q) (df : list Transaction)
  : option (list ForecastDay) :=
  match start_date df with
  | None => None
  | Some start =>
      let dr := date_range start (end_date start) in
      let dn := daily_net df dr in
      Some (frame dr dn (map (Qplus starting_balance) (cumsum dn)))
  end.

(** Line 92. *)
Definition risk_days (threshold : Q) (fc : list ForecastDay) : list ForecastDay :=
  List.filter (fun r => Qltb (fd_balance r) threshold) fc.

(** ** Sorting ([sort_values])

    One insertion sort serves every [sort_values] call of the script.  An
    element is placed in front of the first element it is [le]-related to,
    so rows with equal keys keep their order; pandas leaves the order of
    ties open for its default sort. *)
Section Sort.
Context {A : Type} (le : A -> A -> bool).

Fixpoint sort_insert (x : A) (l : list A) : list A :=
  match l with
  | [] => [x]
  | y :: ys => if le x y then x :: y :: ys else y :: sort_insert x ys
  end.

Definition sort_values (l : list A) : list A := foldr sort_insert [] l.

(** The order of the sorted frame: [b] may stand after [a]. *)
Definition follows (a b : A) : Prop := le a b = true.
End Sort.

(** ** Big expense days (lines 95-101) *)

Record ExpenseDay := mkExpenseDay {
  ed_row : ForecastDay;
  abs_expense : Q
}.

Definition expense_days (fc : list ForecastDay) : list ExpenseDay :=
  map (fun r => mkExpenseDay r (Qabs (fd_daily_net r)))
      (List.filter (fun r => Qltb (fd_daily_net r) 0) fc).

(** [ascending=False]: larger [abs_expense] first. *)
Definition abs_expense_desc (a b : ExpenseDay) : bool :=
  Qle_bool (abs_expense b) (abs_expense a).

Definition top_expense_days (fc : list ForecastDay) : list ExpenseDay :=
  take 10 (sort_values abs_expense_desc (expense_days fc)).

(** ** Recurring expenses (lines 104-167) *)

Definition is_expense (row : Transaction) : bool :=
  String.eqb (lower (tx_type row)) "expense".

Definition expenses_only (df : list Transaction) : list Transaction :=
  List.filter is_expense df.

(** [groupby("client_or_vendor")]: one group per distinct key, the keys in
    ascending order, each group holding its rows in frame order.  Rows whose
    key is missing belong to no group, so the [pd.isna(vendor)] test of the
    loop never fires. *)
Definition has_vendor (v : string) (row : Transaction) : bool :=
  match tx_client_or_vendor row with
  | Some w => String.eqb v w
  | None => false
  end.

Definition vendor_keys (rows : list Transaction) : list string :=
  sort_values String.leb (remove_dups (omap tx_client_or_vendor rows)).

Definition groupby_client_or_vendor (rows : list Transaction)
  : list (string * list Transaction) :=
  map (fun v => (v, List.filter (has_vendor v) rows)) (vendor_keys rows).

(** Line 118: day differences of neighbouring dates. *)
Fixpoint gaps (dates : list Z) : list Z :=
  match dates with
  | d1 :: ((d2 :: _) as rest) => (d2 - d1)%Z :: gaps rest
  | _ => []
  end.

Definition Zsum (l : list Z) : Z := fold_left Z.add l 0%Z.

(** Line 122: [sum(gaps) / len(gaps)], a true division. *)
Definition avg_gap (gs : list Z) : Q :=
  inject_Z (Zsum gs) / inject_Z (Z.of_nat (length gs)).

(** Python's [round]: to the nearest integer, a half goes to the even
    neighbour. *)
Definition round_half_even (x : Q) : Z :=
  let f := Qfloor x in
  match Qcompare (x - inject_Z f) (1 # 2) with
  | Lt => f
  | Gt => (f + 1)%Z
  | Eq => if Z.even f then f else (f + 1)%Z
  end.

(** [round(x, ndigits)] for [ndigits >= 0]. *)
Definition round_to (x : Q) (ndigits : nat) : Q :=
  let scale := inject_Z (10 ^ Z.of_nat ndigits) in
  inject_Z (round_half_even (x * scale)) / scale.

(** [Series.mean]. *)
Definition mean (l : list Q) : Q :=
  Qsum l / inject_Z (Z.of_nat (length l)).

(** Lines 133-140. *)
Definition freq_label (avg : Q) : string :=
  if Qle_bool 5 avg && Qle_bool avg 9 then "Weekly-ish"
  else if Qle_bool 10 avg && Qle_bool avg 20 then "Bi-weekly-ish"
  else if Qle_bool 25 avg && Qle_bool avg 35 then "Monthly-ish"
  else "Recurring".

Record RecurringExpense := mkRecurringExpense {
  vendor : string;
  avg_gap_days : Q;
  frequency : string;
  avg_amount : Q;
  last_payment_date : Z;
  next_expected_date : Z
}.

Definition date_asc (a b : Transaction) : bool := (tx_date a <=? tx_date b)%Z.

(** The average gap of a group as the loop computes it (lines 113-122). *)
Definition group_avg_gap (group : list Transaction) : Q :=
  avg_gap (gaps (map tx_date (sort_values date_asc group))).

(** One iteration of the loop over the groups: [None] is [continue]. *)
Definition recurring_record (v : string) (group : list Transaction)
  : option RecurringExpense :=
  if (length group <? 3)%nat then None else
  let group := sort_values date_asc group in
  let dates := map tx_date group in
  if (length dates <? 3)%nat then None else
  let gs := gaps dates in
  match gs with
  | [] => None
  | _ :: _ =>
      let avg := avg_gap gs in
      if Qltb avg 5 || Qltb 45 avg then None else
      let last_date := List.last dates 0%Z in
      Some {| vendor := v;
              avg_gap_days := round_to avg 1;
              frequency := freq_label avg;
              avg_amount := round_to (mean (map tx_amount group)) 2;
              last_payment_date := last_date;
              next_expected_date := (last_date + round_half_even avg)%Z |}
  end.

Definition recurring_records (df : list Transaction) : list RecurringExpense :=
  omap (fun g => recurring_record (fst g) (snd g))
       (groupby_client_or_vendor (expenses_only df)).

(** Lines 153-156: ascending [next_expected_date], then descending
    [avg_amount]. *)
Definition next_then_amount (a b : RecurringExpense) : bool :=
  (next_expected_date a <? next_expected_date b)%Z
  || ((next_expected_date a =? next_expected_date b)%Z
      && Qle_bool (avg_amount b) (avg_amount a)).

Definition recurring_df (df : list Transaction) : list RecurringExpense :=
  sort_values next_then_amount (recurring_records df).

(** ** Late-paying clients (lines 262-298) *)

Record Invoice := mkInvoice {
  inv_client : string;
  inv_issue_date : Z;
  inv_due_date : Z;
  inv_paid_date : option Z;    (* NaT after errors="coerce" is None *)
  inv_amount : Q
}.

(** A CSV as read by [pd.read_csv]: its header and its rows. *)
Record Table (Row : Type) := mkTable {
  columns : list string;
  rows : list Row
}.
Arguments mkTable {Row} _ _.
Arguments columns {Row} _.
Arguments rows {Row} _.

(** Line 267. *)
Definition required_invoice_cols : list string :=
  ["client"; "issue_date"; "due_date"; "paid_date"; "amount"]%string.

Record ClientDelay := mkClientDelay {
  cd_client : string;
  delay_days : Q
}.

(** What the tab shows. *)
Inductive LateTab :=
  | UploadPrompt                          (* line 263 *)
  | SchemaError (required : list string)  (* line 269 *)
  | NoPaidInvoices                        (* line 279 *)
  | NoLateClients                         (* line 292 *)
  | LateStats (stats : list ClientDelay). (* line 298 *)

(** [paid]: the rows with a paid date, each with its [delay_days]. *)
Definition paid (inv : list Invoice) : list (string * Z) :=
  omap (fun i => match inv_paid_date i with
                 | Some p => Some (inv_client i, (p - inv_due_date i)%Z)
                 | None => None
                 end) inv.

Definition delay_desc (a b : ClientDelay) : bool :=
  Qle_bool (delay_days b) (delay_days a).

(** Lines 283-289. *)
Definition late_stats (pd : list (string * Z)) : list ClientDelay :=
  let clients := sort_values String.leb (remove_dups (map fst pd)) in
  let means :=
    map (fun c =>
           mkClientDelay c
             (mean (map (fun r => inject_Z (snd r))
                        (List.filter (fun r => String.eqb c (fst r)) pd))))
        clients in
  List.filter (fun s => Qltb 0 (delay_days s)) (sort_values delay_desc means).

Definition late_tab (invoices_file : option (Table Invoice)) : LateTab :=
  match invoices_file with
  | None => UploadPrompt
  | Some inv =>
      if negb (issubset required_invoice_cols (columns inv))
      then SchemaError required_invoice_cols
      else
        match paid (rows inv) with
        | [] => NoPaidInvoices
        | pd =>
            match late_stats pd with
            | [] => NoLateClients
            | ls =>
                LateStats
                  (map (fun s => mkClientDelay (cd_client s)
                                               (round_to (delay_days s) 1)) ls)
            end
        end
  end.

(** *** The tab on raw date cells

    [late_tab] above takes the issue and due dates as already parsed.  The
    strict [pd.to_datetime] of lines 273-274 can raise instead, and an
    empty due date becomes NaT; [late_run] embeds the same lines on rows
    whose date cells may be empty or unparseable and whose client may be
    missing. *)

(** What the strict [pd.to_datetime] makes of a cell: a date, NaT for an
    empty cell, an exception for text that is no date. *)
Inductive DateCell :=
  | ParsedDate (d : Z)
  | EmptyDate
  | BadDate.

Record RawInvoice := mkRawInvoice {
  raw_client : option string;     (* NaN = None *)
  raw_issue_date : DateCell;
  raw_due_date : DateCell;
  raw_paid_date : option Z;       (* after errors="coerce": NaT = None *)
  raw_amount : Q
}.

Inductive LateRun :=
  | LateRaised                    (* lines 273-274 raise *)
  | LateShown (tab : LateTab).

Definition is_bad (c : DateCell) : bool :=
  match c with
  | BadDate => true
  | _ => false
  end.

(** Lines 273-274 succeed. *)
Definition strict_dates_parse (inv : list RawInvoice) : bool :=
  forallb (fun i => negb (is_bad (raw_issue_date i))
                    && negb (is_bad (raw_due_date i))) inv.

(** Lines 277-281: the rows with a paid date, each with its client and its
    [delay_days], which is NaN ([None]) when the due date is NaT. *)
Definition raw_paid (inv : list RawInvoice) : list (option string * option Z) :=
  omap (fun i =>
          match raw_paid_date i with
          | Some p =>
              Some (raw_client i,
                    match raw_due_date i with
                    | ParsedDate d => Some (p - d)%Z
                    | _ => None
                    end)
          | None => None
          end) inv.

(** What reaches the grouped mean: [groupby] drops the rows whose client
    is NaN and [mean] skips the NaN delays.  A client all of whose delays
    are NaN gets a NaN mean, sorted last and dropped by the [> 0] filter,
    which is the same as not listing it. *)
Definition raw_delays (pd : list (option string * option Z)) : list (string * Z) :=
  omap (fun r => match r with
                 | (Some c, Some d) => Some (c, d)
                 | _ => None
                 end) pd.

Definition late_run (invoices_file : option (Table RawInvoice)) : LateRun :=
  match invoices_file with
  | None => LateShown UploadPrompt
  | Some inv =>
      if negb (issubset required_invoice_cols (columns inv))
      then LateShown (SchemaError required_invoice_cols)
      else if negb (strict_dates_parse (rows inv)) then LateRaised
      else
        match raw_paid (rows inv) with
        | [] => LateShown NoPaidInvoices
        | pd =>
            match late_stats (raw_delays pd) with
            | [] => LateShown NoLateClients
            | ls =>
                LateShown
                  (LateStats
                     (map (fun s => mkClientDelay (cd_client s)
                                                  (round_to (delay_days s) 1)) ls))
            end
        end
  end.

(** ** The whole script *)

Record Report := mkReport {
  rp_forecast : list ForecastDay;
  rp_risk_days : list ForecastDay;
  rp_top_expense_days : list ExpenseDay;
  rp_recurring : list RecurringExpense;
  rp_late : LateTab
}.

Inductive Run :=
  | AwaitUpload                            (* lines 62-64: st.stop() *)
  | TransactionSchemaError                 (* lines 70-72: st.stop() *)
  | Raised                                 (* an uncaught pandas exception *)
  | Rendered (r : Report).

Definition app (transactions_file : option (Table Transaction))
    (invoices_file : option (Table Invoice))
    (starting_balance threshold : Q) : Run :=
  match transactions_file with
  | None => AwaitUpload
  | Some t =>
      if negb (issubset required_cols (columns t)) then TransactionSchemaError
      else
        match forecast_df starting_balance (rows t) with
        | None => Raised
        | Some fc =>
            if negb (existsb (String.eqb "client_or_vendor") (columns t))
            then Raised
            else
              Rendered {| rp_forecast := fc;
                          rp_risk_days := risk_days threshold fc;
                          rp_top_expense_days := top_expense_days fc;
                          rp_recurring := recurring_df (rows t);
                          rp_late := late_tab invoices_file |}
        end
  end.

(** ** The forecast in machine arithmetic (lines 76-89)

    [CellOps] is the arithmetic of the [amount] column as pandas applies
    it: the zero that [fill_value=0] stands for, the addition used by
    [cumsum], the unary minus of line 77, the reduction that the grouped
    [sum] applies to the values of one group (in frame order), and the
    conversion to float64 that adding the float [starting_balance]
    performs. *)
Module Machine.

Record CellOps := mkCellOps {
  cell : Type;
  cell_zero : cell;
  cell_add : cell -> cell -> cell;
  cell_neg : cell -> cell;
  group_sum : list cell -> cell;
  to_float64 : cell -> float
}.

Record Row (C : Type) := mkRow {
  row_date : Z;
  row_type : string;
  row_amount : C
}.
Arguments mkRow {C} _ _ _.
Arguments row_date {C} _.
Arguments row_type {C} _.
Arguments row_amount {C} _.

Record Day (C : Type) := mkDay {
  day_date : Z;
  day_daily_net : C;
  day_balance : float
}.
Arguments mkDay {C} _ _ _.
Arguments day_date {C} _.
Arguments day_daily_net {C} _.
Arguments day_balance {C} _.

Section Forecast.
Context (ops : CellOps).

(** Lines 76-79. *)
Definition signed_amount (row : Row (cell ops)) : cell ops :=
  if String.eqb (lower (row_type row)) "expense"
  then cell_neg ops (row_amount row)
  else row_amount row.

(** Line 82. *)
Definition start_date (df : list (Row (cell ops))) : option Z :=
  match df with
  | [] => None
  | r :: rs => Some (fold_left Z.min (map row_date rs) (row_date r))
  end.

(** [df.groupby("date")["signed_amount"]]: the values of each date, in
    frame order. *)
Definition groups (df : list (Row (cell ops))) : gmap Z (list (cell ops)) :=
  fold_left
    (fun acc row =>
       <[row_date row := default [] (acc !! row_date row) ++ [signed_amount row]]> acc)
    df ∅.

(** [.sum()] of the groups. *)
Definition groupby_date_sum (df : list (Row (cell ops))) : gmap Z (cell ops) :=
  group_sum ops <$> groups df.

(** Line 87, with [reindex(date_range, fill_value=0)]. *)
Definition daily_net (df : list (Row (cell ops))) (index : list Z)
  : list (cell ops) :=
  map (fun d => default (cell_zero ops) (groupby_date_sum df !! d)) index.

(** [Series.cumsum]: the first entry is the first element, every later
    entry adds the next element to the entry before. *)
Fixpoint cumsum_from (acc : cell ops) (l : list (cell ops)) : list (cell ops) :=
  match l with
  | [] => []
  | x :: xs => cell_add ops acc x :: cumsum_from (cell_add ops acc x) xs
  end.

Definition cumsum (l : list (cell ops)) : list (cell ops) :=
  match l with
  | [] => []
  | x :: xs => x :: cumsum_from x xs
  end.

(** Line 89: [starting_balance + cumsum], element by element in float64. *)
Definition balance (starting_balance : float) (running : list (cell ops))
  : list float :=
  map (fun c => PrimFloat.add starting_balance (to_float64 ops c)) running.

Definition frame (dates : list Z) (nets : list (cell ops)) (balances : list float)
  : list (Day (cell ops)) :=
  zip_with (fun d nb => mkDay d (fst nb) (snd nb)) dates (zip nets balances).

Definition forecast_df (starting_balance : float) (df : list (Row (cell ops)))
  : option (list (Day (cell ops))) :=
  match start_date df with
  | None => None
  | Some start =>
      let dr := date_range start (end_date start) in
      let dn := daily_net df dr in
      Some (frame dr dn (balance starting_balance (cumsum dn)))
  end.

End Forecast.

(** The arithmetic of a float64 amount column.  pandas accumulates the
    values of a group in frame order; for a group of one or two rows every
    summation scheme returns the correctly rounded sum, which is what the
    accumulation from zero returns. *)
Definition float64 : CellOps :=
  {| cell := float;
     cell_zero := 0%float;
     cell_add := PrimFloat.add;
     cell_neg := PrimFloat.opp;
     group_sum := fun l => fold_left PrimFloat.add l 0%float;
     to_float64 := fun x => x |}.




(** The rows dated exactly [d], and their signed amounts in frame order. *)
Definition on_date {C : Type} (d : Z) (row : Row C) : bool := (row_date row =? d)%Z.


End Machine.

(** ** Overview tab (lines 177-211) *)

Definition balance_asc (a b : ForecastDay) : bool :=
  Qle_bool (fd_balance a) (fd_balance b).

(** Line 180: [forecast_df.sort_values("balance").iloc[0]]; [iloc[0]] raises
    on an empty frame, hence the option. *)
Definition lowest_row (fc : list ForecastDay) : option ForecastDay :=
  head (sort_values balance_asc fc).

(** Line 183. *)
Definition num_risk_days (threshold : Q) (fc : list ForecastDay) : nat :=
  length (risk_days threshold fc).

(** Lines 195-205: the success banner, or the warning with the date and the
    balance of [risk_days.iloc[0]]. *)
Inductive RiskMessage :=
  | StaysAbove
  | FirstDrop (risk_date : Z) (risk_balance : Q).

Definition risk_message (threshold : Q) (fc : list ForecastDay) : RiskMessage :=
  match risk_days threshold fc with
  | [] => StaysAbove
  | first_risk :: _ => FirstDrop (fd_date first_risk) (fd_balance first_risk)
  end.

(** Lines 208-211: [df.sort_values("date", ascending=False).head(10)]. *)
Definition date_desc (a b : Transaction) : bool := (tx_date b <=? tx_date a)%Z.

Definition recent_transactions (df : list Transaction) : list Transaction :=
  take 10 (sort_values date_desc df).

(** ** Vocabulary of the properties *)

(** The rows of a ledger dated exactly [d]. *)
Definition on_date (d : Z) (row : Transaction) : bool := (tx_date row =? d)%Z.

(** The rows dated within the 90 days that start at [s]. *)
Definition in_horizon (s : Z) (row : Transaction) : bool :=
  (s <=? tx_date row)%Z && (tx_date row <=? s + 89)%Z.


(** The rows dated [d] or earlier. *)
Definition up_to (d : Z) (row : Transaction) : bool := (tx_date row <=? d)%Z.

(** The payment delays, in days, of the paid invoices of client [c]. *)
Definition client_delays (inv : list Invoice) (c : string) : list Z :=
  omap (fun i => if String.eqb c (inv_client i)
                 then (fun p => (p - inv_due_date i)%Z) <$> inv_paid_date i
                 else None) inv.

Definition mean_delay (inv : list Invoice) (c : string) : Q :=
  mean (map inject_Z (client_delays inv c)).

(** On raw rows: the delays of the invoices of client [c] that have a paid
    date and a due date. *)
Definition raw_client_delays (inv : list RawInvoice) (c : string) : list Z :=
  omap (fun i =>
          match raw_client i, raw_paid_date i, raw_due_date i with
          | Some c', Some p, ParsedDate d =>
              if String.eqb c c' then Some (p - d)%Z else None
          | _, _, _ => None
          end) inv.

Definition raw_mean_delay (inv : list RawInvoice) (c : string) : Q :=
  mean (map inject_Z (raw_client_delays inv c)).

(** No issue date and no due date is unparseable. *)
Definition dates_parse (inv : list RawInvoice) : Prop :=
  forall i, i ∈ inv -> raw_issue_date i <> BadDate /\ raw_due_date i <> BadDate.

(** The rows that name a counterparty. *)
Definition names_vendor (row : Transaction) : bool :=
  match tx_client_or_vendor row with
  | Some _ => true
  | None => false
  end.

(** The expense rows of counterparty [v]. *)
Definition vendor_expenses (df : list Transaction) (v : string) : list Transaction :=
  List.filter (fun t => is_expense t && has_vendor v t) df.

(** ** Sample inputs *)

(** The three-row ledger of the specification's first example, with day 100
    as its first date. *)
Definition sample_ledger : list Transaction :=
  [ mkTransaction 100 "income" 1000 None;
    mkTransaction 101 "expense" 200 None;
    mkTransaction 102 "expense" 300 None ].

(** The same ledger with a fourth row dated far beyond the horizon. *)
Definition sample_ledger_late_row : list Transaction :=
  sample_ledger ++ [ mkTransaction 300 "expense" 50 None ].

(** An expense row whose amount is negative. *)
Definition negative_expense_row : Transaction :=
  mkTransaction 101 "Expense" (-40) None.

(** A row whose type is neither income nor expense. *)
Definition transfer_row : Transaction := mkTransaction 0 "transfer" 5 None.

(** A vendor paid on days 0, 9 and 19: gaps 9 and 10, average 9.5; and a
    vendor paid every 30 days. *)
Definition vendor_ledger : list Transaction :=
  [ mkTransaction 0 "expense" 100 (Some "acme");
    mkTransaction 9 "expense" 100 (Some "acme");
    mkTransaction 19 "expense" 100 (Some "acme");
    mkTransaction 0 "expense" 100 (Some "rent");
    mkTransaction 30 "expense" 100 (Some "rent");
    mkTransaction 60 "expense" 100 (Some "rent");
    mkTransaction 90 "expense" 100 (Some "rent");
    mkTransaction 5 "expense" 20 (Some "once") ]%string.

Definition acme_record : RecurringExpense :=
  {| vendor := "acme"; avg_gap_days := 95 # 10; frequency := "Recurring";
     avg_amount := 10000 # 100; last_payment_date := 19; next_expected_date := 29 |}.

Definition rent_record : RecurringExpense :=
  {| vendor := "rent"; avg_gap_days := 300 # 10; frequency := "Monthly-ish";
     avg_amount := 10000 # 100; last_payment_date := 90; next_expected_date := 120 |}.

(** An invoice file with every column the check names and no
    [invoice_id]; its single invoice was paid 5 days late. *)
Definition invoices_without_id : Table Invoice :=
  mkTable ["client"; "issue_date"; "due_date"; "paid_date"; "amount"]%string
          [ mkInvoice "globex" 0 30 (Some 35%Z) 1200 ].

(** Ledgers with float64 amounts; [1 / 10] is the float64 nearest to 0.1,
    and so on.  One row a day: 0.2 and 0.3. *)
Definition float_ledger_one_per_day : list (Machine.Row float) :=
  [ Machine.mkRow 100 "income" (2 / 10)%float;
    Machine.mkRow 101 "income" (3 / 10)%float ].



(** The forecast of the sample ledger from a starting balance of 500, its
    second day, and its day of lowest balance. *)
Definition sample_forecast : list ForecastDay :=
  default [] (forecast_df 500 sample_ledger).

Definition sample_second_day : ForecastDay := mkForecastDay 101 (-200) 1300.

Definition sample_lowest_day : ForecastDay := mkForecastDay 102 (-300) 1000.

(** An invoice file with all six columns: one client paid once 5 days late
    and once 3 days early, another client has not paid. *)
Definition sample_invoices : Table Invoice :=
  mkTable ["invoice_id"; "client"; "issue_date"; "due_date"; "paid_date";
           "amount"]%string
          [ mkInvoice "globex" 0 30 (Some 35%Z) 1200;
            mkInvoice "globex" 40 70 (Some 67%Z) 800;
            mkInvoice "initech" 10 40 None 500 ].

Definition sample_late_client : ClientDelay := mkClientDelay "globex" (10 # 10).

(** The same file as raw rows, with one more invoice whose due date is
    empty and one whose client is missing. *)
Definition sample_raw_invoices : Table RawInvoice :=
  mkTable ["invoice_id"; "client"; "issue_date"; "due_date"; "paid_date";
           "amount"]%string
          [ mkRawInvoice (Some "globex") (ParsedDate 0) (ParsedDate 30) (Some 35%Z) 1200;
            mkRawInvoice (Some "globex") (ParsedDate 40) (ParsedDate 70) (Some 67%Z) 800;
            mkRawInvoice (Some "initech") (ParsedDate 10) (ParsedDate 40) None 500;
            mkRawInvoice (Some "initech") (ParsedDate 10) EmptyDate (Some 50%Z) 500;
            mkRawInvoice None (ParsedDate 10) (ParsedDate 20) (Some 90%Z) 100 ].

(** * Properties *)

(** ** Sums of cells *)

Lemma fold_left_Qplus_acc (l : list Q) (a : Q) :
  fold_left Qplus l a == a + Qsum l.
Proof.
  unfold Qsum. revert a.
  induction l as [|x l IH]; intros a; simpl.
  - ring.
  - rewrite (IH (a + x)), (IH (0 + x)). ring.
Qed.

Lemma Qsum_cons (x : Q) (l : list Q) : Qsum (x :: l) == x + Qsum l.
Proof. unfold Qsum at 1. simpl. rewrite fold_left_Qplus_acc. ring. Qed.

Lemma Qsum_app (l1 l2 : list Q) : Qsum (l1 ++ l2) == Qsum l1 + Qsum l2.
Proof.
  induction l1 as [|x l1 IH]; simpl.
  - unfold Qsum at 2. simpl. ring.
  - rewrite !Qsum_cons, IH. ring.
Qed.


(** ** The grouped daily sums *)

Lemma groupby_fold_lookup (l : list Transaction) (m : gmap Z Q) (d : Z) :
  default 0
    (fold_left
       (fun acc row =>
          <[tx_date row := default 0 (acc !! tx_date row) + signed_amount row]> acc)
       l m !! d)
  = fold_left Qplus (map signed_amount (List.filter (on_date d) l))
      (default 0 (m !! d)).
Proof.
  revert m. induction l as [|row l IH]; intros m; simpl; [reflexivity|].
  rewrite IH. unfold on_date at 2.
  destruct (Z.eqb_spec (tx_date row) d) as [->|Hne]; simpl.
  - rewrite lookup_insert_eq. reflexivity.
  - rewrite lookup_insert_ne by exact Hne. reflexivity.
Qed.

Lemma groupby_date_sum_lookup (df : list Transaction) (d : Z) :
  default 0 (groupby_date_sum df !! d)
  = Qsum (map signed_amount (List.filter (on_date d) df)).
Proof.
  unfold groupby_date_sum. rewrite groupby_fold_lookup.
  rewrite lookup_empty. reflexivity.
Qed.

(** ** The date index *)

Lemma date_range_length (start : Z) :
  length (date_range start (end_date start)) = 90%nat.
Proof.
  unfold date_range, end_date. rewrite length_map, length_seq.
  replace (start + 89 - start + 1)%Z with 90%Z by lia. reflexivity.
Qed.

Lemma date_range_lookup (start : Z) (i : nat) (d : Z) :
  date_range start (end_date start) !! i = Some d
  <-> d = (start + Z.of_nat i)%Z /\ (i < 90)%nat.
Proof.
  unfold date_range, end_date.
  replace (start + 89 - start + 1)%Z with 90%Z by lia.
  change (Z.to_nat 90) with 90%nat.
  change (map ?f ?l) with (f <$> l).
  rewrite list_lookup_fmap_Some. split.
  - intros (j & -> & Hj). apply lookup_seq in Hj as [-> Hlt]. split; [reflexivity|exact Hlt].
  - intros [-> Hlt]. exists i. split; [reflexivity|].
    apply lookup_seq. split; [reflexivity|exact Hlt].
Qed.

(** ** The earliest date *)

Lemma fold_left_min_spec (l : list Z) (a : Z) :
  let m := fold_left Z.min l a in
  (m = a \/ m ∈ l) /\ (m <= a)%Z /\ (forall x, x ∈ l -> (m <= x)%Z).
Proof.
  revert a. induction l as [|y l IH]; intros a; simpl.
  - split; [left; reflexivity|]. split; [lia|]. intros x Hx. inversion Hx.
  - destruct (IH (Z.min a y)) as (Hin & Hle & Hall). split; [|split].
    + destruct Hin as [Heq|Hin].
      * destruct (Z.min_spec a y) as [[_ Hm]|[_ Hm]].
        -- left. congruence.
        -- right. rewrite Heq, Hm. left.
      * right. right. exact Hin.
    + lia.
    + intros x Hx. apply elem_of_cons in Hx as [->|Hx]; [lia|]. apply Hall, Hx.
Qed.

Lemma start_date_spec (df : list Transaction) (s : Z) :
  start_date df = Some s
  <-> s ∈ map tx_date df /\ (forall t, t ∈ df -> (s <= tx_date t)%Z).
Proof.
  destruct df as [|r rs]; simpl.
  - split; [discriminate|]. intros [H _]. inversion H.
  - pose proof (fold_left_min_spec (map tx_date rs) (tx_date r)) as (Hin & Hle & Hall).
    simpl in Hin, Hle, Hall.
    set (m := fold_left Z.min (map tx_date rs) (tx_date r)) in *.
    assert (Hm : m ∈ tx_date r :: map tx_date rs).
    { destruct Hin as [->|Hin]; [left|right; exact Hin]. }
    assert (Hlow : forall t, t ∈ r :: rs -> (m <= tx_date t)%Z).
    { intros t Ht. apply elem_of_cons in Ht as [->|Ht]; [exact Hle|].
      apply Hall. change (map tx_date rs) with (tx_date <$> rs).
      apply list_elem_of_fmap_2, Ht. }
    split.
    + intros [= <-]. split; assumption.
    + intros [Hs Hslow]. f_equal.
      change (tx_date r :: map tx_date rs) with (tx_date <$> (r :: rs)) in Hm, Hs.
      apply list_elem_of_fmap in Hm as (tm & Htm & Hintm).
      apply list_elem_of_fmap in Hs as (ts & Hts & Hints).
      specialize (Hlow ts Hints). specialize (Hslow tm Hintm). lia.
Qed.

Lemma start_date_is_Some (df : list Transaction) :
  df <> [] -> exists s, start_date df = Some s.
Proof. destruct df as [|r rs]; [congruence|]. intros _. eexists. reflexivity. Qed.

(** ** Running sums *)

Lemma cumsum_from_length (a : Q) (l : list Q) :
  length (cumsum_from a l) = length l.
Proof. revert a. induction l as [|x l IH]; intros a; simpl; [reflexivity|]. now rewrite IH. Qed.

Lemma cumsum_length (l : list Q) : length (cumsum l) = length l.
Proof. destruct l; simpl; [reflexivity|]. now rewrite cumsum_from_length. Qed.

Lemma cumsum_from_step (a : Q) (l : list Q) (i : nat) (c c' y : Q) :
  cumsum_from a l !! i = Some c ->
  cumsum_from a l !! S i = Some c' ->
  l !! S i = Some y ->
  c' = c + y.
Proof.
  revert a i. induction l as [|z l IH]; intros a i Hc Hc' Hy; [discriminate|].
  destruct i as [|i]; simpl in *.
  - injection Hc as <-. destruct l as [|w l]; [discriminate|].
    simpl in *. injection Hc' as <-. injection Hy as <-. reflexivity.
  - eapply IH; eauto.
Qed.

Lemma cumsum_head (l : list Q) : cumsum l !! 0%nat = l !! 0%nat.
Proof. destruct l; reflexivity. Qed.

Lemma cumsum_step (l : list Q) (i : nat) (c c' y : Q) :
  cumsum l !! i = Some c ->
  cumsum l !! S i = Some c' ->
  l !! S i = Some y ->
  c' = c + y.
Proof.
  destruct l as [|z l]; [discriminate|]. intros Hc Hc' Hy.
  destruct i as [|i]; simpl in *.
  - injection Hc as <-. destruct l as [|w l]; [discriminate|].
    simpl in *. injection Hc' as <-. injection Hy as <-. reflexivity.
  - eapply cumsum_from_step; eauto.
Qed.

(** ** Rows of the forecast frame *)

Lemma frame_lookup (ds : list Z) (ns bs : list Q) (i : nat) (r : ForecastDay) :
  frame ds ns bs !! i = Some r
  <-> ds !! i = Some (fd_date r) /\ ns !! i = Some (fd_daily_net r)
      /\ bs !! i = Some (fd_balance r).
Proof.
  unfold frame. split.
  - intros H. apply lookup_zip_with_Some in H as (d & [n b] & -> & Hd & Hnb).
    apply lookup_zip_with_Some in Hnb as (n' & b' & [= -> ->] & Hn & Hb).
    simpl. auto.
  - intros (Hd & Hn & Hb). apply lookup_zip_with_Some.
    exists (fd_date r), (fd_daily_net r, fd_balance r).
    split; [destruct r; reflexivity|]. split; [exact Hd|].
    apply lookup_zip_with_Some. eauto.
Qed.

Lemma frame_length (ds : list Z) (ns bs : list Q) :
  length ns = length ds -> length bs = length ds ->
  length (frame ds ns bs) = length ds.
Proof.
  intros Hn Hb. unfold frame. rewrite !length_zip_with. lia.
Qed.

Lemma daily_net_length (df : list Transaction) (index : list Z) :
  length (daily_net df index) = length index.
Proof. unfold daily_net, reindex. apply length_map. Qed.

Lemma daily_net_lookup (df : list Transaction) (index : list Z) (i : nat) (x : Q) :
  daily_net df index !! i = Some x
  <-> exists d, index !! i = Some d
        /\ x = Qsum (map signed_amount (List.filter (on_date d) df)).
Proof.
  unfold daily_net, reindex.
  change (map ?f index) with (f <$> index).
  rewrite list_lookup_fmap_Some. split.
  - intros (d & -> & Hd). exists d. split; [exact Hd|]. apply groupby_date_sum_lookup.
  - intros (d & Hd & ->). exists d. split; [|exact Hd].
    symmetry. apply groupby_date_sum_lookup.
Qed.

Lemma forecast_df_Some (sb : Q) (df : list Transaction) (s : Z) :
  start_date df = Some s ->
  forecast_df sb df
  = Some (frame (date_range s (end_date s))
                (daily_net df (date_range s (end_date s)))
                (map (Qplus sb) (cumsum (daily_net df (date_range s (end_date s)))))).
Proof. intros Hs. unfold forecast_df. rewrite Hs. reflexivity. Qed.

Lemma forecast_df_length (sb : Q) (df : list Transaction) (fc : list ForecastDay) :
  forecast_df sb df = Some fc -> length fc = 90%nat.
Proof.
  unfold forecast_df. destruct (start_date df) as [s|]; [|discriminate].
  intros [= <-]. rewrite frame_length.
  - apply date_range_length.
  - apply daily_net_length.
  - rewrite length_map, cumsum_length. apply daily_net_length.
Qed.

(** A row of the forecast, column by column. *)
Lemma forecast_df_lookup (sb : Q) (df : list Transaction) (s : Z)
    (fc : list ForecastDay) (i : nat) (r : ForecastDay) :
  start_date df = Some s ->
  forecast_df sb df = Some fc ->
  fc !! i = Some r ->
  (i < 90)%nat
  /\ fd_date r = (s + Z.of_nat i)%Z
  /\ fd_daily_net r = Qsum (map signed_amount (List.filter (on_date (s + Z.of_nat i)) df))
  /\ daily_net df (date_range s (end_date s)) !! i = Some (fd_daily_net r)
  /\ exists c, cumsum (daily_net df (date_range s (end_date s))) !! i = Some c
               /\ fd_balance r = sb + c.
Proof.
  intros Hs Hfc Hr. rewrite (forecast_df_Some sb df s Hs) in Hfc.
  injection Hfc as <-. apply frame_lookup in Hr as (Hd & Hn & Hb).
  apply date_range_lookup in Hd as [Hd Hi].
  pose proof Hn as Hn'.
  apply daily_net_lookup in Hn as (d & Hd' & Hx).
  apply date_range_lookup in Hd' as [-> _].
  change (map ?f ?l) with (f <$> l) in Hb.
  apply list_lookup_fmap_Some in Hb as (c & Hc & Hb).
  repeat split; try assumption. exists c. split; [exact Hb|exact Hc].
Qed.

(** ** C1: shape of the forecast *)

(** C1.  A non-empty ledger yields a forecast of exactly 90 rows; row [i]
    is dated [i] days after the earliest transaction date of the ledger, so
    the first row is that date and each row is one day after the one
    before. *)
Theorem forecast_spans_90_consecutive_days (sb : Q) (df : list Transaction) :
  df <> [] ->
  exists fc s,
    forecast_df sb df = Some fc
    /\ length fc = 90%nat
    /\ s ∈ map tx_date df
    /\ (forall t, t ∈ df -> (s <= tx_date t)%Z)
    /\ (forall i, (i < 90)%nat -> fd_date <$> fc !! i = Some (s + Z.of_nat i)%Z)
    /\ (forall i r r', fc !! i = Some r -> fc !! S i = Some r' ->
                       fd_date r' = (fd_date r + 1)%Z).
Proof.
  intros Hne. destruct (start_date_is_Some df Hne) as [s Hs].
  pose proof (forecast_df_Some sb df s Hs) as Hfc.
  eexists. exists s. split; [exact Hfc|].
  pose proof (forecast_df_length _ _ _ Hfc) as Hlen.
  apply start_date_spec in Hs as Hspec. destruct Hspec as [Hin Hlow].
  repeat split; try assumption.
  - intros i Hi.
    destruct (lookup_lt_is_Some_2 _ i ltac:(rewrite Hlen; exact Hi)) as [r Hr].
    rewrite Hr. simpl. f_equal.
    now destruct (forecast_df_lookup _ _ _ _ _ _ Hs Hfc Hr) as (_ & Hd & _).
  - intros i r r' Hr Hr'.
    destruct (forecast_df_lookup _ _ _ _ _ _ Hs Hfc Hr) as (_ & Hd & _).
    destruct (forecast_df_lookup _ _ _ _ _ _ Hs Hfc Hr') as (_ & Hd' & _).
    lia.
Qed.

(** ** C2: the balance recurrence *)

Lemma forecast_balance_head (sb : Q) (df : list Transaction)
    (fc : list ForecastDay) (r : ForecastDay) :
  forecast_df sb df = Some fc ->
  fc !! 0%nat = Some r ->
  fd_balance r = sb + fd_daily_net r.
Proof.
  intros Hfc Hr. destruct (start_date df) as [s|] eqn:Hs;
    [|unfold forecast_df in Hfc; rewrite Hs in Hfc; discriminate].
  destruct (forecast_df_lookup _ _ _ _ _ _ Hs Hfc Hr) as (_ & _ & _ & Hn & c & Hc & Hb).
  rewrite cumsum_head, Hn in Hc. injection Hc as <-. exact Hb.
Qed.

Lemma forecast_balance_step (sb : Q) (df : list Transaction)
    (fc : list ForecastDay) (i : nat) (r r' : ForecastDay) :
  forecast_df sb df = Some fc ->
  fc !! i = Some r ->
  fc !! S i = Some r' ->
  fd_balance r' == fd_balance r + fd_daily_net r'.
Proof.
  intros Hfc Hr Hr'. destruct (start_date df) as [s|] eqn:Hs;
    [|unfold forecast_df in Hfc; rewrite Hs in Hfc; discriminate].
  destruct (forecast_df_lookup _ _ _ _ _ _ Hs Hfc Hr) as (_ & _ & _ & _ & c & Hc & Hb).
  destruct (forecast_df_lookup _ _ _ _ _ _ Hs Hfc Hr') as (_ & _ & _ & Hn' & c' & Hc' & Hb').
  rewrite Hb, Hb', (cumsum_step _ _ _ _ _ Hc Hc' Hn'). ring.
Qed.

(** The balance recurrence read in exact rational arithmetic: a non-empty
    ledger has a forecast; its first balance is the starting balance plus
    the first daily net, and every later balance is the previous balance
    plus that day's net.  (In float64 the recurrence can fail; see
    [float_balance_recurrence_fails].) *)
Theorem forecast_balance_recurrence (sb : Q) (df : list Transaction) :
  df <> [] ->
  exists fc,
    forecast_df sb df = Some fc
    /\ length fc = 90%nat
    /\ (forall r, fc !! 0%nat = Some r -> fd_balance r == sb + fd_daily_net r)
    /\ (forall i r r', fc !! i = Some r -> fc !! S i = Some r' ->
                       fd_balance r' == fd_balance r + fd_daily_net r').
Proof.
  intros Hne. destruct (start_date_is_Some df Hne) as [s Hs].
  pose proof (forecast_df_Some sb df s Hs) as Hfc.
  eexists. split; [exact Hfc|]. split; [|split].
  - exact (forecast_df_length _ _ _ Hfc).
  - intros r Hr. rewrite (forecast_balance_head _ _ _ _ Hfc Hr). reflexivity.
  - intros i r r' Hr Hr'. exact (forecast_balance_step _ _ _ _ _ _ Hfc Hr Hr').
Qed.

(** ** C3: daily nets against the ledger *)

Lemma frame_daily_net (ds : list Z) (ns bs : list Q) :
  length ns = length ds -> length bs = length ds ->
  map fd_daily_net (frame ds ns bs) = ns.
Proof.
  unfold frame. revert ns bs.
  induction ds as [|d ds IH]; intros [|n ns] [|b bs] Hn Hb;
    simpl in *; try discriminate; try reflexivity.
  f_equal. apply IH; lia.
Qed.

Lemma filter_none {A : Type} (l : list A) : List.filter (fun _ => false) l = [].
Proof. induction l; simpl; auto. Qed.

Lemma filter_all_false {A : Type} (p : A -> bool) (l : list A) :
  (forall t, t ∈ l -> p t = false) -> List.filter p l = [].
Proof.
  induction l as [|x l IH]; intros H; simpl; [reflexivity|].
  rewrite (H x) by left. apply IH. intros t Ht. apply H. right. exact Ht.
Qed.

Lemma Qsum_filter_disjoint {A : Type} (f : A -> Q) (p q : A -> bool) (l : list A) :
  (forall t, p t = true -> q t = false) ->
  Qsum (map f (List.filter (fun t => p t || q t) l))
  == Qsum (map f (List.filter p l)) + Qsum (map f (List.filter q l)).
Proof.
  intros Hpq. induction l as [|t l IH]; simpl.
  - reflexivity.
  - destruct (p t) eqn:Hp; simpl.
    + rewrite (Hpq t Hp). rewrite !Qsum_cons, IH. ring.
    + destruct (q t); simpl; rewrite ?Qsum_cons, IH; ring.
Qed.

(** Summing the per-date sums over distinct dates regroups the rows that
    fall on one of these dates. *)
Lemma Qsum_by_date (df : list Transaction) (index : list Z) :
  NoDup index ->
  Qsum (map (fun d => Qsum (map signed_amount (List.filter (on_date d) df))) index)
  == Qsum (map signed_amount
             (List.filter (fun t => existsb (Z.eqb (tx_date t)) index) df)).
Proof.
  induction 1 as [|d index Hd _ IH]; simpl.
  - rewrite filter_none. reflexivity.
  - rewrite Qsum_cons, IH. symmetry.
    apply (Qsum_filter_disjoint signed_amount (on_date d)
             (fun t => existsb (Z.eqb (tx_date t)) index)).
    intros t Ht. apply Z.eqb_eq in Ht.
    destruct (existsb _ index) eqn:He; [|reflexivity].
    apply existsb_exists in He as (x & Hx & Hxe). apply Z.eqb_eq in Hxe.
    exfalso. apply Hd. apply list_elem_of_In. congruence.
Qed.

Lemma date_range_elem (s d : Z) :
  d ∈ date_range s (end_date s) <-> (s <= d <= s + 89)%Z.
Proof.
  rewrite list_elem_of_lookup. split.
  - intros [i Hi]. apply date_range_lookup in Hi as [-> Hi]. lia.
  - intros Hd. exists (Z.to_nat (d - s)). apply date_range_lookup. lia.
Qed.

Lemma date_range_NoDup (s : Z) : NoDup (date_range s (end_date s)).
Proof.
  apply NoDup_alt. intros i j d Hi Hj.
  apply date_range_lookup in Hi as [-> _]. apply date_range_lookup in Hj as [Hj _].
  lia.
Qed.

Lemma in_date_range_horizon (s : Z) (t : Transaction) :
  existsb (Z.eqb (tx_date t)) (date_range s (end_date s)) = in_horizon s t.
Proof.
  unfold in_horizon. apply eq_true_iff_eq.
  rewrite existsb_exists, andb_true_iff, !Z.leb_le. split.
  - intros (d & Hd & He). apply Z.eqb_eq in He. subst d.
    apply list_elem_of_In, date_range_elem in Hd. lia.
  - intros Hd. exists (tx_date t). split; [|apply Z.eqb_refl].
    apply list_elem_of_In, date_range_elem. lia.
Qed.

Lemma daily_net_total (df : list Transaction) (s : Z) :
  Qsum (daily_net df (date_range s (end_date s)))
  == Qsum (map signed_amount (List.filter (in_horizon s) df)).
Proof.
  unfold daily_net, reindex.
  rewrite (map_ext _ (fun d => Qsum (map signed_amount (List.filter (on_date d) df))))
    by (intros d; apply groupby_date_sum_lookup).
  rewrite Qsum_by_date by apply date_range_NoDup.
  rewrite (filter_ext _ (in_horizon s)) by (intros t; apply in_date_range_horizon).
  reflexivity.
Qed.

(** The daily nets read in exact rational arithmetic: in the forecast of a
    non-empty ledger with earliest date [s], every day [d] of the horizon
    has a row, and that row's daily net is the sum of [signed_amount] over
    the ledger rows dated [d] (so it is [0] when no row is dated [d]); the
    daily nets of the 90 rows add up to the sum of [signed_amount] over the
    rows dated within the horizon.  (In float64 the sums are rounded; see
    [float_daily_net_round_trip_fails].) *)
Theorem daily_net_sums_transactions_of_the_day (sb : Q) (df : list Transaction) :
  df <> [] ->
  exists fc s,
    forecast_df sb df = Some fc
    /\ start_date df = Some s
    /\ (forall d, (s <= d <= s + 89)%Z ->
          exists r, fc !! Z.to_nat (d - s) = Some r
                    /\ fd_date r = d
                    /\ fd_daily_net r
                       = Qsum (map signed_amount (List.filter (on_date d) df))
                    /\ ((forall t, t ∈ df -> tx_date t <> d) -> fd_daily_net r = 0))
    /\ (forall r, r ∈ fc ->
          fd_daily_net r
          = Qsum (map signed_amount (List.filter (on_date (fd_date r)) df)))
    /\ Qsum (map fd_daily_net fc)
       == Qsum (map signed_amount (List.filter (in_horizon s) df)).
Proof.
  intros Hne. destruct (start_date_is_Some df Hne) as [s Hs].
  pose proof (forecast_df_Some sb df s Hs) as Hfc.
  eexists. exists s. split; [exact Hfc|]. split; [exact Hs|].
  pose proof (forecast_df_length _ _ _ Hfc) as Hlen.
  split; [|split].
  - intros d Hd.
    destruct (lookup_lt_is_Some_2 _ (Z.to_nat (d - s))
                ltac:(rewrite Hlen; lia)) as [r Hr].
    exists r. split; [exact Hr|].
    destruct (forecast_df_lookup _ _ _ _ _ _ Hs Hfc Hr) as (_ & Hdt & Hn & _).
    replace (s + Z.of_nat (Z.to_nat (d - s)))%Z with d in Hdt, Hn by lia.
    split; [exact Hdt|]. split; [exact Hn|].
    intros Hnone. rewrite Hn, filter_all_false; [reflexivity|].
    intros t Ht. apply Z.eqb_neq, Hnone, Ht.
  - intros r Hr. apply list_elem_of_lookup in Hr as [i Hr].
    destruct (forecast_df_lookup _ _ _ _ _ _ Hs Hfc Hr) as (_ & Hdt & Hn & _).
    rewrite Hdt. exact Hn.
  - rewrite frame_daily_net.
    + apply daily_net_total.
    + apply daily_net_length.
    + rewrite length_map, cumsum_length. apply daily_net_length.
Qed.

(** ** C9: rows outside the horizon *)

Lemma elem_of_filter_bool {A : Type} (p : A -> bool) (l : list A) (x : A) :
  x ∈ List.filter p l <-> x ∈ l /\ p x = true.
Proof. rewrite !list_elem_of_In. apply filter_In. Qed.







(** ** C10: an expense row with a negative amount *)





(** ** Facts about [sort_values] *)

Section SortFacts.
Context {A : Type} (le : A -> A -> bool).

Lemma sort_insert_Permutation (x : A) (l : list A) :
  sort_insert le x l ≡ₚ x :: l.
Proof.
  induction l as [|y l IH]; simpl; [reflexivity|].
  destruct (le x y); [reflexivity|].
  rewrite IH. apply Permutation_swap.
Qed.

Lemma sort_values_Permutation (l : list A) : sort_values le l ≡ₚ l.
Proof.
  induction l as [|x l IH]; simpl; [reflexivity|].
  rewrite sort_insert_Permutation, IH. reflexivity.
Qed.

Lemma sort_values_elem (l : list A) (x : A) : x ∈ sort_values le l <-> x ∈ l.
Proof. now rewrite sort_values_Permutation. Qed.

Lemma sort_values_length (l : list A) : length (sort_values le l) = length l.
Proof. now rewrite sort_values_Permutation. Qed.

Hypothesis le_total : forall a b, le a b = false -> le b a = true.

Lemma sort_insert_HdRel (a x : A) (l : list A) :
  follows le a x -> HdRel (follows le) a l -> HdRel (follows le) a (sort_insert le x l).
Proof.
  intros Hax Hal. destruct l as [|y l]; simpl.
  - constructor. exact Hax.
  - destruct (le x y); constructor; [exact Hax|].
    inversion Hal; subst. assumption.
Qed.

Lemma sort_insert_Sorted (x : A) (l : list A) :
  Sorted (follows le) l -> Sorted (follows le) (sort_insert le x l).
Proof.
  induction 1 as [|y l Hl IH Hy]; simpl.
  - repeat constructor.
  - destruct (le x y) eqn:Hxy.
    + constructor; [constructor; assumption|]. constructor. exact Hxy.
    + constructor; [exact IH|].
      apply sort_insert_HdRel; [apply le_total, Hxy|exact Hy].
Qed.

Lemma sort_values_Sorted (l : list A) : Sorted (follows le) (sort_values le l).
Proof.
  induction l as [|x l IH]; simpl; [constructor|].
  apply sort_insert_Sorted, IH.
Qed.

Hypothesis le_trans : forall a b c, le a b = true -> le b c = true -> le a c = true.

Lemma sort_values_StronglySorted (l : list A) :
  StronglySorted (follows le) (sort_values le l).
Proof.
  apply Sorted_StronglySorted; [|apply sort_values_Sorted].
  intros a b c. apply le_trans.
Qed.
End SortFacts.

Lemma StronglySorted_take {A : Type} (R : A -> A -> Prop) (n : nat) (l : list A) :
  StronglySorted R l -> StronglySorted R (take n l).
Proof.
  intros Hl. rewrite <- (take_drop n l) in Hl.
  apply StronglySorted_app_1_l in Hl. exact Hl.
Qed.

Lemma StronglySorted_lookup {A : Type} (R : A -> A -> Prop) (l : list A)
    (i j : nat) (a b : A) :
  StronglySorted R l -> (i < j)%nat ->
  l !! i = Some a -> l !! j = Some b -> R a b.
Proof.
  intros Hl. revert i j. induction Hl as [|x l Hl IH Hx]; intros i j Hij Ha Hb.
  - discriminate.
  - destruct j as [|j]; [lia|]. destruct i as [|i]; simpl in *.
    + injection Ha as <-. rewrite List.Forall_forall in Hx. apply Hx.
      apply list_elem_of_In, list_elem_of_lookup. eauto.
    + apply (IH i j); [lia|assumption|assumption].
Qed.

(** ** C7: the largest net expense days *)

Lemma Qltb_lt (x y : Q) : Qltb x y = true <-> x < y.
Proof.
  unfold Qltb. rewrite negb_true_iff, <- not_true_iff_false, Qle_bool_iff.
  split; [apply Qnot_le_lt|apply Qlt_not_le].
Qed.

Lemma abs_expense_desc_total (a b : ExpenseDay) :
  abs_expense_desc a b = false -> abs_expense_desc b a = true.
Proof.
  unfold abs_expense_desc. rewrite <- not_true_iff_false, !Qle_bool_iff. lra.
Qed.

Lemma abs_expense_desc_trans (a b c : ExpenseDay) :
  abs_expense_desc a b = true -> abs_expense_desc b c = true ->
  abs_expense_desc a c = true.
Proof. unfold abs_expense_desc. rewrite !Qle_bool_iff. lra. Qed.

Lemma expense_days_elem (fc : list ForecastDay) (e : ExpenseDay) :
  e ∈ expense_days fc
  <-> ed_row e ∈ fc /\ fd_daily_net (ed_row e) < 0
      /\ abs_expense e = Qabs (fd_daily_net (ed_row e)).
Proof.
  unfold expense_days. change (map ?f ?l) with (f <$> l).
  rewrite list_elem_of_fmap. split.
  - intros (r & -> & Hr). apply elem_of_filter_bool in Hr as [Hr Hneg].
    apply Qltb_lt in Hneg. simpl. auto.
  - intros (Hr & Hneg & Habs). exists (ed_row e). split.
    + destruct e as [r a]. simpl in *. now subst a.
    + apply elem_of_filter_bool. split; [exact Hr|]. apply Qltb_lt, Hneg.
Qed.

(** C7.  Whatever the forecast, the table of top expense days has at most
    10 rows, each of them a forecast day with a negative daily net listed
    with the absolute value of that net, and a row never has a larger
    absolute net than a row above it. *)
Theorem top_expense_days_ranked (fc : list ForecastDay) :
  (length (top_expense_days fc) <= 10)%nat
  /\ (forall e, e ∈ top_expense_days fc ->
        ed_row e ∈ fc
        /\ fd_daily_net (ed_row e) < 0
        /\ abs_expense e = Qabs (fd_daily_net (ed_row e)))
  /\ (forall i j a b, (i < j)%nat ->
        top_expense_days fc !! i = Some a ->
        top_expense_days fc !! j = Some b ->
        Qabs (fd_daily_net (ed_row b)) <= Qabs (fd_daily_net (ed_row a))).
Proof.
  unfold top_expense_days. split; [|split].
  - rewrite length_take. lia.
  - intros e He. apply subseteq_take in He.
    apply sort_values_elem in He. apply expense_days_elem, He.
  - intros i j a b Hij Ha Hb.
    assert (Hin : forall k e,
              take 10 (sort_values abs_expense_desc (expense_days fc)) !! k = Some e ->
              abs_expense e = Qabs (fd_daily_net (ed_row e))).
    { intros k e Hk. apply list_elem_of_lookup_2, subseteq_take in Hk.
      apply sort_values_elem, expense_days_elem in Hk. apply Hk. }
    rewrite <- (Hin _ _ Ha), <- (Hin _ _ Hb).
    apply Qle_bool_iff.
    change (follows abs_expense_desc a b).
    refine (StronglySorted_lookup _ _ i j a b _ Hij Ha Hb).
    apply StronglySorted_take, sort_values_StronglySorted.
    + exact abs_expense_desc_total.
    + exact abs_expense_desc_trans.
Qed.

(** ** C4: the sign rule *)

(** C4, as stated, fails: a row whose type is not income (here
    [transfer]) keeps its amount as [signed_amount]; it is not negated. *)
Lemma transfer_row_is_not_negated :
  lower (tx_type transfer_row) <> "income"%string
  /\ signed_amount transfer_row == tx_amount transfer_row
  /\ ~ signed_amount transfer_row == - tx_amount transfer_row.
Proof.
  split; [discriminate|]. split; [reflexivity|]. vm_compute. discriminate.
Qed.

(** C4, amended.  [signed_amount] is [- amount] exactly for the rows
    whose type, lower-cased, is [expense]; every other row, a row of type
    [income] in any letter case among them, keeps [amount]. *)
Theorem signed_amount_sign_rule (row : Transaction) :
  (lower (tx_type row) = "expense"%string -> signed_amount row = - tx_amount row)
  /\ (lower (tx_type row) <> "expense"%string -> signed_amount row = tx_amount row)
  /\ (lower (tx_type row) = "income"%string -> signed_amount row = tx_amount row).
Proof.
  unfold signed_amount.
  destruct (String.eqb_spec (lower (tx_type row)) "expense") as [He|Hne].
  - split; [reflexivity|]. split; [congruence|]. rewrite He. discriminate.
  - split; [congruence|]. split; reflexivity.
Qed.

(** ** C5 and C6: the recurrence detector *)

Lemma filter_filter_and {A : Type} (p q : A -> bool) (l : list A) :
  List.filter q (List.filter p l) = List.filter (fun t => p t && q t) l.
Proof.
  induction l as [|t l IH]; simpl; [reflexivity|].
  destruct (p t); simpl; [destruct (q t)|]; now rewrite IH.
Qed.

Lemma group_is_vendor_expenses (df : list Transaction) (v : string) :
  List.filter (has_vendor v) (expenses_only df) = vendor_expenses df v.
Proof. apply filter_filter_and. Qed.

(** What an iteration that appends a record has checked and stored. *)
Lemma recurring_record_Some (v : string) (group : list Transaction)
    (rec : RecurringExpense) :
  recurring_record v group = Some rec ->
  vendor rec = v
  /\ (3 <= length group)%nat
  /\ 5 <= group_avg_gap group <= 45
  /\ frequency rec = freq_label (group_avg_gap group)
  /\ avg_gap_days rec = round_to (group_avg_gap group) 1.
Proof.
  unfold recurring_record, group_avg_gap.
  destruct (Nat.ltb_spec (length group) 3) as [|Hlen]; [discriminate|].
  destruct (length (map tx_date (sort_values date_asc group)) <? 3)%nat; [discriminate|].
  destruct (gaps (map tx_date (sort_values date_asc group))) as [|g gs]; [discriminate|].
  set (avg := avg_gap (g :: gs)).
  destruct (Qltb avg 5) eqn:H5; [discriminate|].
  destruct (Qltb 45 avg) eqn:H45; [discriminate|].
  simpl. intros [= <-]. simpl.
  apply not_true_iff_false in H5, H45. rewrite Qltb_lt in H5, H45.
  apply Qnot_lt_le in H5, H45. auto.
Qed.

Lemma recurring_records_elem (df : list Transaction) (rec : RecurringExpense) :
  rec ∈ recurring_records df ->
  recurring_record (vendor rec) (vendor_expenses df (vendor rec)) = Some rec.
Proof.
  unfold recurring_records, groupby_client_or_vendor. intros Hrec.
  apply list_elem_of_omap in Hrec as ([v group] & Hg & Hrec). simpl in Hrec.
  change (map ?f ?l) with (f <$> l) in Hg.
  apply list_elem_of_fmap in Hg as (w & [= -> ->] & _).
  rewrite group_is_vendor_expenses in Hrec.
  destruct (recurring_record_Some _ _ _ Hrec) as (Hv & _). rewrite Hv. exact Hrec.
Qed.

(** C5.  Every record the detector emits belongs to a counterparty with
    at least 3 expense rows whose average gap between consecutive payment
    dates lies in [5, 45]; hence a counterparty with fewer than 3 expense
    rows, or with an average gap below 5 or above 45, gets no record.  The
    displayed table holds exactly the emitted records. *)
Theorem recurring_records_within_window (df : list Transaction) :
  (forall rec, rec ∈ recurring_records df ->
     (3 <= length (vendor_expenses df (vendor rec)))%nat
     /\ 5 <= group_avg_gap (vendor_expenses df (vendor rec)) <= 45)
  /\ (forall v,
        (length (vendor_expenses df v) < 3)%nat
        \/ group_avg_gap (vendor_expenses df v) < 5
        \/ 45 < group_avg_gap (vendor_expenses df v) ->
        forall rec, rec ∈ recurring_records df -> vendor rec <> v)
  /\ (forall rec, rec ∈ recurring_df df <-> rec ∈ recurring_records df).
Proof.
  assert (Hrow : forall rec, rec ∈ recurring_records df ->
            (3 <= length (vendor_expenses df (vendor rec)))%nat
            /\ 5 <= group_avg_gap (vendor_expenses df (vendor rec)) <= 45).
  { intros rec Hrec. apply recurring_records_elem in Hrec.
    destruct (recurring_record_Some _ _ _ Hrec) as (_ & Hlen & Hgap & _). auto. }
  split; [exact Hrow|]. split.
  - intros v Hout rec Hrec <-. destruct (Hrow rec Hrec) as [Hlen [Hlo Hhi]].
    destruct Hout as [Hout|[Hout|Hout]]; [lia|lra|lra].
  - intros rec. unfold recurring_df. apply sort_values_elem.
Qed.

Lemma freq_label_spec (avg : Q) :
  (freq_label avg = "Weekly-ish"%string <-> 5 <= avg <= 9)
  /\ (freq_label avg = "Bi-weekly-ish"%string <-> 10 <= avg <= 20)
  /\ (freq_label avg = "Monthly-ish"%string <-> 25 <= avg <= 35)
  /\ (freq_label avg = "Recurring"%string
      <-> ~ 5 <= avg <= 9 /\ ~ 10 <= avg <= 20 /\ ~ 25 <= avg <= 35).
Proof.
  unfold freq_label.
  destruct (Qle_bool 5 avg) eqn:H5; destruct (Qle_bool avg 9) eqn:H9;
  destruct (Qle_bool 10 avg) eqn:H10; destruct (Qle_bool avg 20) eqn:H20;
  destruct (Qle_bool 25 avg) eqn:H25; destruct (Qle_bool avg 35) eqn:H35;
  simpl;
  repeat match goal with
         | H : Qle_bool _ _ = true |- _ => apply Qle_bool_iff in H
         | H : Qle_bool _ _ = false |- _ =>
             apply not_true_iff_false in H; rewrite Qle_bool_iff in H;
             apply Qnot_le_lt in H
         end;
  repeat split; intros; try discriminate; try lra.
Qed.

(** The gaps of a date list telescope: they add up to the distance from the
    first date to the last, so the average gap of a group is its date span
    divided by the number of gaps. *)
Lemma Zsum_acc (l : list Z) (a : Z) : fold_left Z.add l a = (a + Zsum l)%Z.
Proof.
  unfold Zsum. revert a. induction l as [|x l IH]; intros a; simpl; [lia|].
  rewrite (IH (a + x)%Z), (IH (0 + x)%Z). lia.
Qed.

Lemma Zsum_cons (x : Z) (l : list Z) : Zsum (x :: l) = (x + Zsum l)%Z.
Proof. unfold Zsum at 1. simpl. apply Zsum_acc. Qed.

Lemma gaps_telescope (d : Z) (dates : list Z) :
  Zsum (gaps (d :: dates)) = (List.last (d :: dates) 0 - d)%Z.
Proof.
  revert d. induction dates as [|e dates IH]; intros d.
  - simpl. unfold Zsum. simpl. lia.
  - change (gaps (d :: e :: dates)) with ((e - d)%Z :: gaps (e :: dates)).
    change (List.last (d :: e :: dates) 0%Z) with (List.last (e :: dates) 0%Z).
    rewrite Zsum_cons, IH. lia.
Qed.

Lemma group_dates_sorted (group : list Transaction) :
  Sorted Z.le (map tx_date (sort_values date_asc group)).
Proof.
  change (map ?f ?l) with (f <$> l).
  apply Sorted_fmap with (R1 := follows date_asc).
  - intros a b H. apply Z.leb_le, H.
  - apply sort_values_Sorted. intros a b H. unfold date_asc in *.
    apply Z.leb_gt in H. apply Z.leb_le. lia.
Qed.

(** C6, as stated, fails: the vendor paid on days 0, 9 and 19 has the
    average gap 9.5, inside the window [5, 45]; its record is labelled
    [Recurring] although 9.5 lies neither in (20, 25) nor in (35, 45]. *)
Lemma gap_between_9_and_10_is_recurring :
  acme_record ∈ recurring_records vendor_ledger
  /\ frequency acme_record = "Recurring"%string
  /\ group_avg_gap (vendor_expenses vendor_ledger (vendor acme_record)) == 19 # 2
  /\ 5 <= 19 # 2 <= 45
  /\ ~ ((20 < 19 # 2 /\ 19 # 2 < 25) \/ (35 < 19 # 2 /\ 19 # 2 <= 45)).
Proof.
  split; [|split; [|split; [|split]]].
  - apply list_elem_of_In. vm_compute. left. reflexivity.
  - reflexivity.
  - reflexivity.
  - split; vm_compute; discriminate.
  - intros [[H _]|[H _]]; vm_compute in H; discriminate.
Qed.

(** C6, amended.  For a record the detector emits, with [avg] the average
    gap of its counterparty (always in [5, 45]): the label is [Weekly-ish]
    exactly when [avg] is in [5, 9], [Bi-weekly-ish] exactly when it is in
    [10, 20], [Monthly-ish] exactly when it is in [25, 35], and [Recurring]
    exactly when it is in (9, 10), (20, 25) or (35, 45]. *)
Theorem frequency_label_bands (df : list Transaction) (rec : RecurringExpense) :
  rec ∈ recurring_records df ->
  exists avg,
    avg = group_avg_gap (vendor_expenses df (vendor rec))
    /\ 5 <= avg <= 45
    /\ (frequency rec = "Weekly-ish"%string <-> 5 <= avg <= 9)
    /\ (frequency rec = "Bi-weekly-ish"%string <-> 10 <= avg <= 20)
    /\ (frequency rec = "Monthly-ish"%string <-> 25 <= avg <= 35)
    /\ (frequency rec = "Recurring"%string
        <-> (9 < avg /\ avg < 10) \/ (20 < avg /\ avg < 25)
            \/ (35 < avg /\ avg <= 45)).
Proof.
  intros Hrec. apply recurring_records_elem in Hrec.
  destruct (recurring_record_Some _ _ _ Hrec) as (_ & _ & Hgap & Hfreq & _).
  eexists. split; [reflexivity|]. split; [exact Hgap|].
  rewrite Hfreq.
  destruct (freq_label_spec (group_avg_gap (vendor_expenses df (vendor rec))))
    as (Hw & Hb & Hm & Hr).
  split; [exact Hw|]. split; [exact Hb|]. split; [exact Hm|].
  rewrite Hr. split.
  - intros (Hnw & Hnb & Hnm).
    destruct (Qlt_le_dec 9 (group_avg_gap (vendor_expenses df (vendor rec))));
    destruct (Qlt_le_dec (group_avg_gap (vendor_expenses df (vendor rec))) 10);
    destruct (Qlt_le_dec 20 (group_avg_gap (vendor_expenses df (vendor rec))));
    destruct (Qlt_le_dec (group_avg_gap (vendor_expenses df (vendor rec))) 25);
    destruct (Qlt_le_dec 35 (group_avg_gap (vendor_expenses df (vendor rec))));
    try (left; split; assumption);
    try (right; left; split; assumption);
    try (right; right; split; [assumption|apply Hgap]);
    exfalso; first [apply Hnw; lra | apply Hnb; lra | apply Hnm; lra].
  - intros [[H1 H2]|[[H1 H2]|[H1 H2]]]; repeat split; lra.
Qed.

(** ** C8: the invoice schema check *)

(** The tab reports a schema error exactly when one of the five columns
    named at line 267 is absent from the header. *)
Lemma late_tab_schema_error (inv : Table Invoice) :
  late_tab (Some inv) = SchemaError required_invoice_cols
  <-> exists c, c ∈ required_invoice_cols /\ c ∉ columns inv.
Proof.
  unfold late_tab.
  destruct (issubset required_invoice_cols (columns inv)) eqn:Hsub; simpl.
  - split.
    + destruct (paid (rows inv)); [discriminate|].
      destruct (late_stats _); discriminate.
    + intros (c & Hc & Hnc). exfalso. apply Hnc.
      unfold issubset in Hsub. rewrite forallb_forall in Hsub.
      apply list_elem_of_In in Hc. specialize (Hsub c Hc).
      apply existsb_exists in Hsub as (x & Hx & He).
      apply String.eqb_eq in He. subst x. apply list_elem_of_In, Hx.
  - split; [|reflexivity]. intros _.
    unfold issubset in Hsub. apply not_true_iff_false in Hsub.
    rewrite forallb_forall in Hsub.
    destruct (decide (Forall (fun c => c ∈ columns inv) required_invoice_cols))
      as [Hall|Hex].
    + exfalso. apply Hsub. intros c Hc. rewrite List.Forall_forall in Hall.
      specialize (Hall c Hc). apply existsb_exists. exists c.
      split; [apply list_elem_of_In, Hall|apply String.eqb_refl].
    + apply not_Forall_Exists in Hex; [|intros c; apply _].
      apply Exists_exists in Hex as (c & Hc & Hnc). exists c.
      split; [exact Hc|exact Hnc].
Qed.

(** C8.  The uploader's help text (line 37) lists [invoice_id] among the
    required invoice columns, yet the check at line 267 leaves it out: an
    invoice file that lacks [invoice_id] and has the other five columns
    passes the schema check, and the tab shows the delay table instead of
    a schema error. *)
Theorem invoices_without_id_are_analysed :
  (("invoice_id" : string) ∉ columns invoices_without_id)
  /\ late_tab (Some invoices_without_id) = LateStats [mkClientDelay "globex" (50 # 10)]
  /\ late_tab (Some invoices_without_id) <> SchemaError required_invoice_cols.
Proof.
  split; [|split].
  - intros H. apply list_elem_of_In in H. vm_compute in H.
    repeat destruct H as [H|H]; try discriminate H. exact H.
  - vm_compute. reflexivity.
  - vm_compute. discriminate.
Qed.

(** ** The theorems at the sample inputs *)

Lemma forecast_spans_90_consecutive_days_sample :
  sample_ledger <> []
  /\ exists fc s,
       forecast_df 500 sample_ledger = Some fc
       /\ length fc = 90%nat
       /\ s ∈ map tx_date sample_ledger
       /\ (forall t, t ∈ sample_ledger -> (s <= tx_date t)%Z)
       /\ (forall i, (i < 90)%nat -> fd_date <$> fc !! i = Some (s + Z.of_nat i)%Z)
       /\ (forall i r r', fc !! i = Some r -> fc !! S i = Some r' ->
                          fd_date r' = (fd_date r + 1)%Z).
Proof.
  assert (H : sample_ledger <> []) by (unfold sample_ledger; discriminate).
  split; [exact H|].
  exact (forecast_spans_90_consecutive_days 500 sample_ledger H).
Defined.

Lemma forecast_balance_recurrence_sample :
  sample_ledger <> []
  /\ exists fc,
       forecast_df 500 sample_ledger = Some fc
       /\ length fc = 90%nat
       /\ (forall r, fc !! 0%nat = Some r -> fd_balance r == 500 + fd_daily_net r)
       /\ (forall i r r', fc !! i = Some r -> fc !! S i = Some r' ->
                          fd_balance r' == fd_balance r + fd_daily_net r').
Proof.
  assert (H : sample_ledger <> []) by (unfold sample_ledger; discriminate).
  split; [exact H|].
  exact (forecast_balance_recurrence 500 sample_ledger H).
Defined.

Lemma daily_net_sums_transactions_of_the_day_sample :
  sample_ledger_late_row <> []
  /\ exists fc s,
       forecast_df 500 sample_ledger_late_row = Some fc
       /\ start_date sample_ledger_late_row = Some s
       /\ (forall d, (s <= d <= s + 89)%Z ->
             exists r, fc !! Z.to_nat (d - s) = Some r
                       /\ fd_date r = d
                       /\ fd_daily_net r
                          = Qsum (map signed_amount
                                    (List.filter (on_date d) sample_ledger_late_row))
                       /\ ((forall t, t ∈ sample_ledger_late_row -> tx_date t <> d) ->
                           fd_daily_net r = 0))
       /\ (forall r, r ∈ fc ->
             fd_daily_net r
             = Qsum (map signed_amount
                       (List.filter (on_date (fd_date r)) sample_ledger_late_row)))
       /\ Qsum (map fd_daily_net fc)
          == Qsum (map signed_amount
                     (List.filter (in_horizon s) sample_ledger_late_row)).
Proof.
  assert (H : sample_ledger_late_row <> []) by (vm_compute; discriminate).
  split; [exact H|].
  exact (daily_net_sums_transactions_of_the_day 500 sample_ledger_late_row H).
Defined.

Lemma signed_amount_sign_rule_sample :
  lower (tx_type negative_expense_row) = "expense"%string
  /\ signed_amount negative_expense_row = - tx_amount negative_expense_row
  /\ lower (tx_type transfer_row) <> "expense"%string
  /\ signed_amount transfer_row = tx_amount transfer_row.
Proof.
  split; [reflexivity|]. split.
  - exact (proj1 (signed_amount_sign_rule negative_expense_row) eq_refl).
  - split; [discriminate|].
    refine (proj1 (proj2 (signed_amount_sign_rule transfer_row)) _). discriminate.
Defined.

Lemma recurring_records_within_window_sample :
  rent_record ∈ recurring_records vendor_ledger
  /\ (3 <= length (vendor_expenses vendor_ledger (vendor rent_record)))%nat
  /\ 5 <= group_avg_gap (vendor_expenses vendor_ledger (vendor rent_record)) <= 45
  /\ (length (vendor_expenses vendor_ledger "once") < 3)%nat
  /\ (forall rec, rec ∈ recurring_records vendor_ledger -> vendor rec <> "once"%string).
Proof.
  assert (Hin : rent_record ∈ recurring_records vendor_ledger).
  { apply list_elem_of_In. vm_compute. right. left. reflexivity. }
  assert (Hone : (length (vendor_expenses vendor_ledger "once") < 3)%nat).
  { vm_compute. lia. }
  destruct (recurring_records_within_window vendor_ledger) as (Hrow & Hnone & _).
  split; [exact Hin|].
  split; [exact (proj1 (Hrow rent_record Hin))|].
  split; [exact (proj2 (Hrow rent_record Hin))|].
  split; [exact Hone|].
  exact (Hnone "once"%string (or_introl Hone)).
Defined.

Lemma frequency_label_bands_sample :
  rent_record ∈ recurring_records vendor_ledger
  /\ exists avg,
       avg = group_avg_gap (vendor_expenses vendor_ledger (vendor rent_record))
       /\ 5 <= avg <= 45
       /\ (frequency rent_record = "Weekly-ish"%string <-> 5 <= avg <= 9)
       /\ (frequency rent_record = "Bi-weekly-ish"%string <-> 10 <= avg <= 20)
       /\ (frequency rent_record = "Monthly-ish"%string <-> 25 <= avg <= 35)
       /\ (frequency rent_record = "Recurring"%string
           <-> (9 < avg /\ avg < 10) \/ (20 < avg /\ avg < 25)
               \/ (35 < avg /\ avg <= 45)).
Proof.
  assert (Hin : rent_record ∈ recurring_records vendor_ledger).
  { apply list_elem_of_In. vm_compute. right. left. reflexivity. }
  split; [exact Hin|].
  exact (frequency_label_bands vendor_ledger rent_record Hin).
Defined.



(** * Further properties of the script *)

(** ** The forecast as a running total *)

Lemma up_to_start (df : list Transaction) (s : Z) :
  start_date df = Some s ->
  List.filter (up_to s) df = List.filter (on_date s) df.
Proof.
  intros Hs. apply start_date_spec in Hs as [_ Hlow].
  apply filter_ext_in. intros t Ht. apply list_elem_of_In, Hlow in Ht.
  unfold up_to, on_date.
  destruct (Z.leb_spec (tx_date t) s); destruct (Z.eqb_spec (tx_date t) s);
    try reflexivity; lia.
Qed.

Lemma up_to_succ (df : list Transaction) (d : Z) :
  Qsum (map signed_amount (List.filter (up_to (d + 1)) df))
  == Qsum (map signed_amount (List.filter (on_date (d + 1)) df))
     + Qsum (map signed_amount (List.filter (up_to d) df)).
Proof.
  rewrite <- (Qsum_filter_disjoint signed_amount (on_date (d + 1)) (up_to d)).
  - rewrite (filter_ext (up_to (d + 1)) (fun t => on_date (d + 1) t || up_to d t));
      [reflexivity|].
    intros t. unfold up_to, on_date.
    destruct (Z.leb_spec (tx_date t) (d + 1));
      destruct (Z.eqb_spec (tx_date t) (d + 1));
      destruct (Z.leb_spec (tx_date t) d); try reflexivity; lia.
  - intros t Ht. unfold up_to, on_date in *. apply Z.eqb_eq in Ht.
    apply Z.leb_gt. lia.
Qed.

Lemma forecast_balance_total (sb : Q) (df : list Transaction) (s : Z)
    (fc : list ForecastDay) :
  start_date df = Some s ->
  forecast_df sb df = Some fc ->
  forall i r, fc !! i = Some r ->
    fd_balance r
    == sb + Qsum (map signed_amount (List.filter (up_to (s + Z.of_nat i)) df)).
Proof.
  intros Hs Hfc. pose proof (forecast_df_length _ _ _ Hfc) as Hlen.
  induction i as [|i IH]; intros r Hr.
  - rewrite (forecast_balance_head _ _ _ _ Hfc Hr).
    destruct (forecast_df_lookup _ _ _ _ _ _ Hs Hfc Hr) as (_ & _ & Hn & _).
    rewrite Hn. replace (s + Z.of_nat 0)%Z with s by lia.
    rewrite (up_to_start df s Hs). reflexivity.
  - assert (Hi : (i < length fc)%nat) by (apply lookup_lt_Some in Hr; lia).
    destruct (lookup_lt_is_Some_2 fc i Hi) as [p Hp].
    rewrite (forecast_balance_step _ _ _ _ _ _ Hfc Hp Hr), (IH p Hp).
    destruct (forecast_df_lookup _ _ _ _ _ _ Hs Hfc Hr) as (_ & _ & Hn & _).
    rewrite Hn.
    replace (s + Z.of_nat (S i))%Z with (s + Z.of_nat i + 1)%Z by lia.
    rewrite (up_to_succ df (s + Z.of_nat i)). ring.
Qed.

(** In exact rational arithmetic, the balance of a forecast day is the
    starting balance plus the signed amounts of all ledger rows dated on or
    before that day. *)
Theorem balance_is_running_total (sb : Q) (df : list Transaction)
    (fc : list ForecastDay) (r : ForecastDay) :
  forecast_df sb df = Some fc ->
  r ∈ fc ->
  fd_balance r
  == sb + Qsum (map signed_amount (List.filter (up_to (fd_date r)) df)).
Proof.
  intros Hfc Hr. destruct (start_date df) as [s|] eqn:Hs;
    [|unfold forecast_df in Hfc; rewrite Hs in Hfc; discriminate].
  apply list_elem_of_lookup in Hr as [i Hr].
  destruct (forecast_df_lookup _ _ _ _ _ _ Hs Hfc Hr) as (_ & Hd & _).
  rewrite Hd. exact (forecast_balance_total sb df s fc Hs Hfc i r Hr).
Qed.

(** In exact rational arithmetic, changing the starting balance by
    [delta] leaves the dates and the daily nets of the forecast as they are
    and moves every balance by [delta]. *)
Theorem starting_balance_shifts_balances (sb delta : Q) (df : list Transaction)
    (fc : list ForecastDay) :
  forecast_df sb df = Some fc ->
  exists fc',
    forecast_df (sb + delta) df = Some fc'
    /\ length fc' = length fc
    /\ forall i r r', fc !! i = Some r -> fc' !! i = Some r' ->
         fd_date r' = fd_date r
         /\ fd_daily_net r' = fd_daily_net r
         /\ fd_balance r' == fd_balance r + delta.
Proof.
  intros Hfc. destruct (start_date df) as [s|] eqn:Hs;
    [|unfold forecast_df in Hfc; rewrite Hs in Hfc; discriminate].
  pose proof (forecast_df_Some (sb + delta) df s Hs) as Hfc'.
  eexists. split; [exact Hfc'|]. split.
  - rewrite (forecast_df_length _ _ _ Hfc), (forecast_df_length _ _ _ Hfc').
    reflexivity.
  - intros i r r' Hr Hr'.
    destruct (forecast_df_lookup _ _ _ _ _ _ Hs Hfc Hr) as (_ & Hd & Hn & _ & c & Hc & Hb).
    destruct (forecast_df_lookup _ _ _ _ _ _ Hs Hfc' Hr')
      as (_ & Hd' & Hn' & _ & c' & Hc' & Hb').
    split; [congruence|]. split; [congruence|].
    rewrite Hc in Hc'. injection Hc' as <-. rewrite Hb, Hb'. ring.
Qed.

(** ** The order of the ledger rows *)

Lemma Qsum_filter_Permutation {A : Type} (f : A -> Q) (p : A -> bool)
    (l1 l2 : list A) :
  l1 ≡ₚ l2 ->
  Qsum (map f (List.filter p l1)) == Qsum (map f (List.filter p l2)).
Proof.
  induction 1 as [|x l1 l2 _ IH|x y l|l1 l2 l3 _ IH1 _ IH2]; simpl.
  - reflexivity.
  - destruct (p x); simpl; rewrite ?Qsum_cons, IH; reflexivity.
  - destruct (p x), (p y); simpl; rewrite ?Qsum_cons; try reflexivity. ring.
  - rewrite IH1. exact IH2.
Qed.

Lemma start_date_Permutation (df1 df2 : list Transaction) (s : Z) :
  df1 ≡ₚ df2 -> start_date df1 = Some s -> start_date df2 = Some s.
Proof.
  intros Hp Hs. apply start_date_spec in Hs as [Hin Hlow]. apply start_date_spec.
  split.
  - change (map tx_date ?l) with (tx_date <$> l) in *. rewrite <- Hp. exact Hin.
  - intros t Ht. apply Hlow. rewrite Hp. exact Ht.
Qed.

(** In exact rational arithmetic the order of the rows in the ledger does
    not matter: a re-ordered ledger gets a forecast with the same dates and,
    day by day, equal daily nets and balances. *)
Theorem forecast_ignores_row_order (sb : Q) (df1 df2 : list Transaction)
    (fc1 : list ForecastDay) :
  df1 ≡ₚ df2 ->
  forecast_df sb df1 = Some fc1 ->
  exists fc2,
    forecast_df sb df2 = Some fc2
    /\ length fc2 = length fc1
    /\ forall i r1 r2, fc1 !! i = Some r1 -> fc2 !! i = Some r2 ->
         fd_date r2 = fd_date r1
         /\ fd_daily_net r2 == fd_daily_net r1
         /\ fd_balance r2 == fd_balance r1.
Proof.
  intros Hp Hfc1. destruct (start_date df1) as [s|] eqn:Hs;
    [|unfold forecast_df in Hfc1; rewrite Hs in Hfc1; discriminate].
  pose proof (start_date_Permutation _ _ _ Hp Hs) as Hs2.
  pose proof (forecast_df_Some sb df2 s Hs2) as Hfc2.
  eexists. split; [exact Hfc2|]. split.
  - rewrite (forecast_df_length _ _ _ Hfc1), (forecast_df_length _ _ _ Hfc2).
    reflexivity.
  - intros i r1 r2 Hr1 Hr2.
    destruct (forecast_df_lookup _ _ _ _ _ _ Hs Hfc1 Hr1) as (_ & Hd1 & Hn1 & _).
    destruct (forecast_df_lookup _ _ _ _ _ _ Hs2 Hfc2 Hr2) as (_ & Hd2 & Hn2 & _).
    split; [congruence|]. split.
    + rewrite Hn1, Hn2. symmetry. apply Qsum_filter_Permutation, Hp.
    + rewrite (forecast_balance_total sb df1 s fc1 Hs Hfc1 i r1 Hr1).
      rewrite (forecast_balance_total sb df2 s _ Hs2 Hfc2 i r2 Hr2).
      rewrite (Qsum_filter_Permutation signed_amount _ df1 df2 Hp). reflexivity.
Qed.

(** ** Risk days and the overview tab *)

Lemma filter_first {A : Type} (p : A -> bool) (l : list A) (x : A) (rest : list A) :
  List.filter p l = x :: rest ->
  exists i, l !! i = Some x /\ p x = true
            /\ forall j y, (j < i)%nat -> l !! j = Some y -> p y = false.
Proof.
  induction l as [|z l IH]; simpl; [discriminate|].
  destruct (p z) eqn:Hz.
  - intros [= -> _]. exists 0%nat. split; [reflexivity|]. split; [exact Hz|].
    intros j y Hj. lia.
  - intros Hf. destruct (IH Hf) as (i & Hi & Hx & Hbefore).
    exists (S i). split; [exact Hi|]. split; [exact Hx|].
    intros [|j] y Hj Hy; simpl in Hy.
    + injection Hy as <-. exact Hz.
    + apply (Hbefore j); [lia|exact Hy].
Qed.

Lemma filter_nil_iff {A : Type} (p : A -> bool) (l : list A) :
  List.filter p l = [] <-> forall x, x ∈ l -> p x = false.
Proof.
  split; [|apply filter_all_false].
  intros Hnil x Hx. destruct (p x) eqn:Hp; [|reflexivity].
  assert (Hin : x ∈ List.filter p l) by (apply elem_of_filter_bool; auto).
  rewrite Hnil in Hin. inversion Hin.
Qed.

Lemma Qltb_ge (x y : Q) : Qltb x y = false <-> y <= x.
Proof.
  rewrite <- not_true_iff_false, Qltb_lt. split; [apply Qnot_lt_le|apply Qle_not_lt].
Qed.

(** X4.  The overview shows the success banner exactly when no forecast
    day has a balance below the threshold; otherwise the warning names the
    first forecast day, in forecast order, whose balance is below the
    threshold, together with that day's balance. *)
Theorem risk_message_names_first_breach (threshold : Q) (fc : list ForecastDay) :
  (risk_message threshold fc = StaysAbove
   <-> forall r, r ∈ fc -> threshold <= fd_balance r)
  /\ (forall d b, risk_message threshold fc = FirstDrop d b ->
        exists i r,
          fc !! i = Some r /\ fd_date r = d /\ fd_balance r = b
          /\ b < threshold
          /\ forall j r', (j < i)%nat -> fc !! j = Some r' ->
                          threshold <= fd_balance r').
Proof.
  unfold risk_message, risk_days. split.
  - destruct (List.filter _ fc) as [|x rest] eqn:Hf.
    + split; [|reflexivity]. intros _ r Hr.
      apply Qltb_ge. exact (proj1 (filter_nil_iff _ fc) Hf r Hr).
    + split; [discriminate|]. intros Hall. exfalso.
      destruct (filter_first _ _ _ _ Hf) as (i & Hi & Hx & _).
      apply Qltb_lt in Hx. apply list_elem_of_lookup_2, Hall in Hi. lra.
  - intros d b. destruct (List.filter _ fc) as [|x rest] eqn:Hf; [discriminate|].
    intros [= <- <-]. destruct (filter_first _ _ _ _ Hf) as (i & Hi & Hx & Hbefore).
    exists i, x. split; [exact Hi|]. split; [reflexivity|]. split; [reflexivity|].
    split; [apply Qltb_lt, Hx|].
    intros j r' Hj Hr'. apply Qltb_ge. exact (Hbefore j r' Hj Hr').
Qed.

Lemma balance_asc_total (a b : ForecastDay) :
  balance_asc a b = false -> balance_asc b a = true.
Proof. unfold balance_asc. rewrite <- not_true_iff_false, !Qle_bool_iff. lra. Qed.

Lemma balance_asc_trans (a b c : ForecastDay) :
  balance_asc a b = true -> balance_asc b c = true -> balance_asc a c = true.
Proof. unfold balance_asc. rewrite !Qle_bool_iff. lra. Qed.

Lemma lowest_row_spec (fc : list ForecastDay) (low : ForecastDay) :
  lowest_row fc = Some low ->
  low ∈ fc /\ forall r, r ∈ fc -> fd_balance low <= fd_balance r.
Proof.
  unfold lowest_row. intros Hh. apply head_Some in Hh as [rest Hsort].
  pose proof (sort_values_StronglySorted balance_asc balance_asc_total
                balance_asc_trans fc) as Hss.
  rewrite Hsort in Hss. apply StronglySorted_cons in Hss as [Hall _].
  split.
  - apply (sort_values_elem balance_asc). rewrite Hsort. left.
  - intros r Hr. apply (sort_values_elem balance_asc) in Hr. rewrite Hsort in Hr.
    apply elem_of_cons in Hr as [->|Hr]; [lra|].
    rewrite Forall_forall in Hall. apply Qle_bool_iff. exact (Hall r Hr).
Qed.

(** X5.  The "lowest projected balance" of the overview exists for every
    non-empty forecast, is the balance of one of its days, and no forecast
    day has a smaller balance. *)
Theorem lowest_row_is_minimum (fc : list ForecastDay) :
  (fc <> [] -> exists low, lowest_row fc = Some low)
  /\ (forall low, lowest_row fc = Some low ->
        low ∈ fc /\ forall r, r ∈ fc -> fd_balance low <= fd_balance r).
Proof.
  split; [|apply lowest_row_spec].
  intros Hne. unfold lowest_row.
  destruct (sort_values balance_asc fc) as [|x rest] eqn:Hs.
  - exfalso. apply Hne. apply length_zero_iff_nil.
    rewrite <- (sort_values_length balance_asc fc), Hs. reflexivity.
  - exists x. reflexivity.
Qed.

(** X6.  The risk-day count is zero, and the success banner is shown,
    exactly when the threshold does not exceed the lowest projected
    balance. *)
Theorem no_risk_iff_threshold_below_lowest (threshold : Q)
    (fc : list ForecastDay) (low : ForecastDay) :
  lowest_row fc = Some low ->
  (num_risk_days threshold fc = 0%nat <-> threshold <= fd_balance low)
  /\ (risk_message threshold fc = StaysAbove <-> threshold <= fd_balance low).
Proof.
  intros Hlow. destruct (lowest_row_spec fc low Hlow) as [Hin Hmin].
  assert (Hnil : risk_days threshold fc = [] <-> threshold <= fd_balance low).
  { unfold risk_days. rewrite filter_nil_iff. split.
    - intros Hall. apply Qltb_ge, Hall, Hin.
    - intros Hth r Hr. apply Qltb_ge. specialize (Hmin r Hr). lra. }
  split.
  - unfold num_risk_days. rewrite length_zero_iff_nil. exact Hnil.
  - rewrite <- Hnil. unfold risk_message.
    destruct (risk_days threshold fc); split; intros; (reflexivity || discriminate).
Qed.

(** ** The first rows of a sorted frame *)

Lemma sort_head_split {A : Type} (le : A -> A -> bool) (n : nat) (l : list A) :
  (forall a b, le a b = false -> le b a = true) ->
  (forall a b c, le a b = true -> le b c = true -> le a c = true) ->
  l ≡ₚ take n (sort_values le l) ++ drop n (sort_values le l)
  /\ (forall a b, a ∈ take n (sort_values le l) ->
                  b ∈ drop n (sort_values le l) -> le a b = true)
  /\ (forall i j a b, (i < j)%nat ->
        take n (sort_values le l) !! i = Some a ->
        take n (sort_values le l) !! j = Some b -> le a b = true).
Proof.
  intros Htotal Htrans.
  pose proof (sort_values_StronglySorted le Htotal Htrans l) as Hss.
  split; [|split].
  - rewrite take_drop. symmetry. apply sort_values_Permutation.
  - intros a b Ha Hb. rewrite <- (take_drop n (sort_values le l)) in Hss.
    exact (StronglySorted_app_1_elem_of _ _ _ a b Hss Ha Hb).
  - intros i j a b Hij Ha Hb.
    exact (StronglySorted_lookup _ _ i j a b (StronglySorted_take _ n _ Hss) Hij Ha Hb).
Qed.

Lemma filter_split_Permutation {A : Type} (p : A -> bool) (l : list A) :
  l ≡ₚ List.filter p l ++ List.filter (fun x => negb (p x)) l.
Proof.
  induction l as [|x l IH]; simpl; [reflexivity|].
  destruct (p x); simpl.
  - rewrite <- IH. reflexivity.
  - rewrite <- Permutation_middle, <- IH. reflexivity.
Qed.

Lemma expense_days_rows (fc : list ForecastDay) :
  map ed_row (expense_days fc)
  = List.filter (fun r => Qltb (fd_daily_net r) 0) fc.
Proof. unfold expense_days. rewrite map_map. simpl. apply map_id. Qed.

(** X7.  The days of a forecast split into the days the top-expense table
    lists, the days with a negative daily net that it does not list, and
    the days whose daily net is not negative.  A negative day is left
    unlisted only when the table already has 10 rows, and then its absolute
    net is never larger than that of a listed day; so the table has
    min(10, number of negative days) rows. *)
Theorem top_expense_days_cover_negative_days (fc : list ForecastDay) :
  exists unlisted others,
    fc ≡ₚ map ed_row (top_expense_days fc) ++ unlisted ++ others
    /\ (forall r, r ∈ others -> 0 <= fd_daily_net r)
    /\ (forall r, r ∈ unlisted -> fd_daily_net r < 0)
    /\ (forall e r, e ∈ top_expense_days fc -> r ∈ unlisted ->
          Qabs (fd_daily_net r) <= Qabs (fd_daily_net (ed_row e)))
    /\ (unlisted <> [] -> length (top_expense_days fc) = 10%nat)
    /\ length (top_expense_days fc)
       = Nat.min 10 (length (top_expense_days fc) + length unlisted).
Proof.
  unfold top_expense_days.
  set (sorted := sort_values abs_expense_desc (expense_days fc)).
  destruct (sort_head_split abs_expense_desc 10 (expense_days fc)
              abs_expense_desc_total abs_expense_desc_trans) as (Hp & Hsplit & _).
  fold sorted in Hp, Hsplit.
  assert (Hmem : forall e, e ∈ sorted ->
            fd_daily_net (ed_row e) < 0
            /\ abs_expense e = Qabs (fd_daily_net (ed_row e))).
  { intros e He. unfold sorted in He.
    apply (proj1 (sort_values_elem abs_expense_desc _ e)) in He.
    apply expense_days_elem in He. tauto. }
  assert (Hlen : (length (take 10 sorted) + length (drop 10 sorted)
                  = length sorted)%nat).
  { rewrite <- length_app, take_drop. reflexivity. }
  exists (map ed_row (drop 10 sorted)),
         (List.filter (fun r => negb (Qltb (fd_daily_net r) 0)) fc).
  split; [|split; [|split; [|split; [|split]]]].
  - rewrite app_assoc, <- map_app.
    rewrite (filter_split_Permutation (fun r => Qltb (fd_daily_net r) 0) fc) at 1.
    apply Permutation_app_tail. rewrite <- expense_days_rows.
    apply Permutation_map. exact Hp.
  - intros r Hr. apply elem_of_filter_bool in Hr as [_ Hr].
    apply negb_true_iff, Qltb_ge in Hr. exact Hr.
  - intros r Hr. change (map ?f ?l) with (f <$> l) in Hr.
    apply list_elem_of_fmap in Hr as (e & -> & He).
    apply subseteq_drop in He. apply Hmem, He.
  - intros e r He Hr. change (map ?f ?l) with (f <$> l) in Hr.
    apply list_elem_of_fmap in Hr as (b & -> & Hb).
    pose proof (Hsplit e b He Hb) as Hdesc. apply Qle_bool_iff in Hdesc.
    apply subseteq_take in He. apply subseteq_drop in Hb.
    destruct (Hmem e He) as [_ <-]. destruct (Hmem b Hb) as [_ <-]. exact Hdesc.
  - intros Hne. rewrite length_take.
    destruct (drop 10 sorted) as [|x rest] eqn:Hd; [simpl in Hne; congruence|].
    assert (length (drop 10 sorted) <> 0)%nat by (rewrite Hd; discriminate).
    rewrite length_drop in *. lia.
  - rewrite length_map, Hlen, length_take. reflexivity.
Qed.

Lemma date_desc_total (a b : Transaction) :
  date_desc a b = false -> date_desc b a = true.
Proof. unfold date_desc. rewrite Z.leb_gt, Z.leb_le. lia. Qed.

Lemma date_desc_trans (a b c : Transaction) :
  date_desc a b = true -> date_desc b c = true -> date_desc a c = true.
Proof. unfold date_desc. rewrite !Z.leb_le. lia. Qed.

(** X8.  The recent-transaction snapshot shows all rows of a ledger of at
    most 10 rows and 10 rows of a longer one, latest date first; a row it
    leaves out is never dated after a row it shows. *)
Theorem recent_transactions_are_the_latest (df : list Transaction) :
  length (recent_transactions df) = Nat.min 10 (length df)
  /\ (forall i j a b, (i < j)%nat ->
        recent_transactions df !! i = Some a ->
        recent_transactions df !! j = Some b ->
        (tx_date b <= tx_date a)%Z)
  /\ exists rest,
       df ≡ₚ recent_transactions df ++ rest
       /\ forall a b, a ∈ recent_transactions df -> b ∈ rest ->
                      (tx_date b <= tx_date a)%Z.
Proof.
  unfold recent_transactions.
  destruct (sort_head_split date_desc 10 df date_desc_total date_desc_trans)
    as (Hp & Hsplit & Hsorted).
  split; [|split].
  - rewrite length_take, sort_values_length. reflexivity.
  - intros i j a b Hij Ha Hb. apply Z.leb_le. exact (Hsorted i j a b Hij Ha Hb).
  - eexists. split; [exact Hp|].
    intros a b Ha Hb. apply Z.leb_le. exact (Hsplit a b Ha Hb).
Qed.

(** ** The recurrence detector, record by record *)

Lemma has_vendor_true (v : string) (t : Transaction) :
  has_vendor v t = true <-> tx_client_or_vendor t = Some v.
Proof.
  unfold has_vendor. destruct (tx_client_or_vendor t) as [w|].
  - rewrite String.eqb_eq. split; [intros ->; reflexivity|intros [= ->]; reflexivity].
  - split; discriminate.
Qed.

Lemma vendor_keys_elem (rows : list Transaction) (v : string) :
  v ∈ vendor_keys rows <-> exists t, t ∈ rows /\ tx_client_or_vendor t = Some v.
Proof.
  unfold vendor_keys. rewrite sort_values_elem, elem_of_remove_dups.
  apply list_elem_of_omap.
Qed.

Lemma vendor_keys_NoDup (rows : list Transaction) : NoDup (vendor_keys rows).
Proof.
  unfold vendor_keys. rewrite sort_values_Permutation. apply NoDup_remove_dups.
Qed.

Lemma gaps_length (dates : list Z) : length (gaps dates) = pred (length dates).
Proof.
  induction dates as [|d [|e dates] IH]; try reflexivity.
  change (gaps (d :: e :: dates)) with ((e - d)%Z :: gaps (e :: dates)).
  simpl length in *. rewrite IH. reflexivity.
Qed.

Lemma recurring_record_complete (v : string) (group : list Transaction) :
  (3 <= length group)%nat ->
  5 <= group_avg_gap group <= 45 ->
  exists rec, recurring_record v group = Some rec.
Proof.
  intros Hlen [Hlo Hhi]. unfold recurring_record, group_avg_gap in *.
  destruct (Nat.ltb_spec (length group) 3) as [|_]; [lia|].
  rewrite length_map, sort_values_length.
  destruct (Nat.ltb_spec (length group) 3) as [|_]; [lia|].
  pose proof (gaps_length (map tx_date (sort_values date_asc group))) as Hg.
  rewrite length_map, sort_values_length in Hg.
  destruct (gaps (map tx_date (sort_values date_asc group))) as [|g gs];
    [simpl in Hg; lia|].
  apply Qle_not_lt in Hlo, Hhi. rewrite <- Qltb_lt in Hlo, Hhi.
  apply not_true_is_false in Hlo, Hhi. rewrite Hlo, Hhi. simpl.
  eexists. reflexivity.
Qed.

Lemma recurring_records_unfold (df : list Transaction) :
  recurring_records df
  = omap (fun v => recurring_record v (vendor_expenses df v))
         (vendor_keys (expenses_only df)).
Proof.
  unfold recurring_records, groupby_client_or_vendor.
  generalize (vendor_keys (expenses_only df)). intros vs.
  induction vs as [|v vs IH]; [reflexivity|].
  cbn [map omap list_omap fst snd]. rewrite group_is_vendor_expenses.
  cbn [map omap list_omap fst snd] in IH. rewrite IH. reflexivity.
Qed.

Lemma omap_keys_NoDup {K R : Type} (f : K -> option R) (key : R -> K)
    (ks : list K) :
  (forall k r, f k = Some r -> key r = k) ->
  NoDup ks -> NoDup (map key (omap f ks)).
Proof.
  intros Hkey. induction 1 as [|k ks Hk Hnd IH]; simpl; [constructor|].
  destruct (f k) as [r|] eqn:Hf; [|exact IH]. simpl. constructor; [|exact IH].
  rewrite (Hkey k r Hf). intros Hin. apply Hk.
  change (map key ?l) with (key <$> l) in Hin.
  apply list_elem_of_fmap in Hin as (r' & -> & Hr').
  apply list_elem_of_omap in Hr' as (k' & Hk' & Hf').
  rewrite (Hkey k' r' Hf'). exact Hk'.
Qed.

(** X9.  The detector emits a record for every counterparty that has at
    least 3 expense rows and an average gap in [5, 45], and it never emits
    two records for the same counterparty. *)
Theorem recurring_records_one_per_qualifying_vendor (df : list Transaction) :
  (forall v,
     (3 <= length (vendor_expenses df v))%nat ->
     5 <= group_avg_gap (vendor_expenses df v) <= 45 ->
     exists rec, rec ∈ recurring_records df /\ vendor rec = v)
  /\ NoDup (map vendor (recurring_records df)).
Proof.
  rewrite recurring_records_unfold. split.
  - intros v Hlen Hgap.
    destruct (recurring_record_complete v _ Hlen Hgap) as [rec Hrec].
    exists rec. split; [|exact (proj1 (recurring_record_Some _ _ _ Hrec))].
    apply list_elem_of_omap. exists v. split; [|exact Hrec].
    apply vendor_keys_elem.
    destruct (vendor_expenses df v) as [|t rest] eqn:Hve; [simpl in Hlen; lia|].
    assert (Ht : t ∈ vendor_expenses df v) by (rewrite Hve; left).
    unfold vendor_expenses in Ht. apply elem_of_filter_bool in Ht as [Ht Hq].
    apply andb_true_iff in Hq as [He Hv]. exists t. split.
    + apply elem_of_filter_bool. auto.
    + apply has_vendor_true, Hv.
  - apply omap_keys_NoDup; [|apply vendor_keys_NoDup].
    intros k r Hr. exact (proj1 (recurring_record_Some _ _ _ Hr)).
Qed.

Lemma round_half_even_floor (x : Q) :
  round_half_even x = Qfloor x
  \/ (round_half_even x = (Qfloor x + 1)%Z /\ inject_Z (Qfloor x) < x).
Proof.
  unfold round_half_even.
  destruct (Qcompare_spec (x - inject_Z (Qfloor x)) (1 # 2)) as [He|Hl|Hg].
  - destruct (Z.even (Qfloor x)); [left; reflexivity|].
    right. split; [reflexivity|]. lra.
  - left. reflexivity.
  - right. split; [reflexivity|]. lra.
Qed.

(** [round] never leaves an interval with integer ends. *)
Lemma round_half_even_between (x : Q) (lo hi : Z) :
  inject_Z lo <= x <= inject_Z hi ->
  (lo <= round_half_even x <= hi)%Z.
Proof.
  intros [Hlo Hhi].
  pose proof (Qfloor_resp_le _ _ Hlo) as Hflo.
  pose proof (Qfloor_resp_le _ _ Hhi) as Hfhi.
  rewrite Qfloor_Z in Hflo, Hfhi.
  destruct (round_half_even_floor x) as [->|[-> Hlt]]; [lia|].
  split; [lia|].
  assert (Hz : inject_Z (Qfloor x) < inject_Z hi) by lra.
  rewrite <- Zlt_Qlt in Hz. lia.
Qed.

Lemma sorted_last_is_max (l : list Z) :
  Sorted Z.le l -> l <> [] ->
  List.last l 0%Z ∈ l /\ forall x, x ∈ l -> (x <= List.last l 0)%Z.
Proof.
  intros Hs. apply (Sorted_StronglySorted Z.le) in Hs.
  induction Hs as [|x l Hl IH Hx]; intros Hne; [congruence|].
  destruct l as [|y l].
  - simpl. split; [left|]. intros z Hz. apply list_elem_of_singleton in Hz. lia.
  - change (List.last (x :: y :: l) 0%Z) with (List.last (y :: l) 0%Z).
    destruct (IH ltac:(discriminate)) as [Hin Hmax]. split; [right; exact Hin|].
    intros z Hz. apply elem_of_cons in Hz as [->|Hz]; [|apply Hmax, Hz].
    rewrite List.Forall_forall in Hx. apply Hx, list_elem_of_In, Hin.
Qed.

Lemma sorted_head_is_min (d : Z) (l : list Z) :
  Sorted Z.le (d :: l) -> forall x, x ∈ d :: l -> (d <= x)%Z.
Proof.
  intros Hs. apply (Sorted_StronglySorted Z.le) in Hs.
  apply StronglySorted_cons in Hs as [Hall _].
  intros x Hx. apply elem_of_cons in Hx as [->|Hx]; [lia|].
  rewrite Forall_forall in Hall. apply Hall, Hx.
Qed.

Lemma group_dates_elem (group : list Transaction) (d : Z) :
  d ∈ map tx_date (sort_values date_asc group) <-> exists t, t ∈ group /\ tx_date t = d.
Proof.
  change (map ?f ?l) with (f <$> l). rewrite list_elem_of_fmap. split.
  - intros (t & -> & Ht). exists t. split; [|reflexivity].
    apply (sort_values_elem date_asc), Ht.
  - intros (t & Ht & <-). exists t. split; [reflexivity|].
    apply (sort_values_elem date_asc), Ht.
Qed.

(** The date fields of an emitted record. *)
Lemma recurring_record_dates (v : string) (group : list Transaction)
    (rec : RecurringExpense) :
  recurring_record v group = Some rec ->
  last_payment_date rec = List.last (map tx_date (sort_values date_asc group)) 0%Z
  /\ next_expected_date rec
     = (last_payment_date rec + round_half_even (group_avg_gap group))%Z.
Proof.
  unfold recurring_record, group_avg_gap.
  destruct (length group <? 3)%nat; [discriminate|].
  destruct (length (map tx_date (sort_values date_asc group)) <? 3)%nat; [discriminate|].
  destruct (gaps (map tx_date (sort_values date_asc group))) as [|g gs]; [discriminate|].
  destruct (Qltb (avg_gap (g :: gs)) 5 || Qltb 45 (avg_gap (g :: gs))); [discriminate|].
  intros [= <-]. simpl. split; reflexivity.
Qed.

(** X10.  In every emitted record, the last payment date is the latest
    date among the counterparty's expense rows, and the next expected date
    is the last payment date plus the rounded average gap, which puts it
    between 5 and 45 days after the last payment. *)
Theorem next_expected_date_follows_last_payment (df : list Transaction)
    (rec : RecurringExpense) :
  rec ∈ recurring_records df ->
  (exists t, t ∈ vendor_expenses df (vendor rec)
             /\ tx_date t = last_payment_date rec)
  /\ (forall t, t ∈ vendor_expenses df (vendor rec) ->
                (tx_date t <= last_payment_date rec)%Z)
  /\ next_expected_date rec
     = (last_payment_date rec
        + round_half_even (group_avg_gap (vendor_expenses df (vendor rec))))%Z
  /\ (last_payment_date rec + 5 <= next_expected_date rec
      <= last_payment_date rec + 45)%Z.
Proof.
  intros Hrec. apply recurring_records_elem in Hrec.
  destruct (recurring_record_Some _ _ _ Hrec) as (_ & Hlen & Hgap & _).
  destruct (recurring_record_dates _ _ _ Hrec) as [Hlast Hnext].
  set (g := vendor_expenses df (vendor rec)) in *.
  assert (Hne : map tx_date (sort_values date_asc g) <> []).
  { intros Hnil. apply (f_equal length) in Hnil.
    rewrite length_map, sort_values_length in Hnil. simpl in Hnil. lia. }
  destruct (sorted_last_is_max _ (group_dates_sorted g) Hne) as [Hin Hmax].
  rewrite <- Hlast in Hin, Hmax.
  split; [apply group_dates_elem, Hin|].
  split.
  - intros t Ht. apply Hmax, group_dates_elem. exists t. auto.
  - split; [exact Hnext|].
    pose proof (round_half_even_between (group_avg_gap g) 5 45 Hgap). lia.
Qed.

(** X11.  The average gap of an emitted record depends only on the
    counterparty's earliest and latest expense dates and on its number of
    expense rows: it is their distance divided by the number of rows minus
    one. *)
Theorem avg_gap_is_span_over_count (df : list Transaction)
    (rec : RecurringExpense) :
  rec ∈ recurring_records df ->
  exists first,
    (exists t, t ∈ vendor_expenses df (vendor rec) /\ tx_date t = first)
    /\ (forall t, t ∈ vendor_expenses df (vendor rec) -> (first <= tx_date t)%Z)
    /\ group_avg_gap (vendor_expenses df (vendor rec))
       = inject_Z (last_payment_date rec - first)
         / inject_Z (Z.of_nat (length (vendor_expenses df (vendor rec))) - 1).
Proof.
  intros Hrec. apply recurring_records_elem in Hrec.
  destruct (recurring_record_Some _ _ _ Hrec) as (_ & Hlen & _).
  destruct (recurring_record_dates _ _ _ Hrec) as [Hlast _].
  set (g := vendor_expenses df (vendor rec)) in *.
  pose proof (group_dates_sorted g) as Hsorted.
  pose proof (gaps_length (map tx_date (sort_values date_asc g))) as Hgl.
  assert (Hdl : length (map tx_date (sort_values date_asc g)) = length g)
    by (rewrite length_map; apply sort_values_length).
  unfold group_avg_gap, avg_gap. rewrite Hgl, Hdl, Hlast.
  pose proof (group_dates_elem g) as Helem.
  destruct (map tx_date (sort_values date_asc g)) as [|d dates];
    [simpl in Hdl; lia|].
  exists d. split; [apply Helem; left|]. split.
  - intros t Ht. apply (sorted_head_is_min d dates Hsorted), Helem. exists t. auto.
  - rewrite gaps_telescope. do 2 f_equal. lia.
Qed.

Lemma next_then_amount_total (a b : RecurringExpense) :
  next_then_amount a b = false -> next_then_amount b a = true.
Proof.
  unfold next_then_amount.
  destruct (Z.ltb_spec (next_expected_date a) (next_expected_date b));
    destruct (Z.ltb_spec (next_expected_date b) (next_expected_date a));
    destruct (Z.eqb_spec (next_expected_date a) (next_expected_date b));
    destruct (Z.eqb_spec (next_expected_date b) (next_expected_date a));
    simpl; try discriminate; try reflexivity; try lia.
  rewrite <- not_true_iff_false, !Qle_bool_iff. lra.
Qed.

Lemma next_then_amount_trans (a b c : RecurringExpense) :
  next_then_amount a b = true -> next_then_amount b c = true ->
  next_then_amount a c = true.
Proof.
  unfold next_then_amount.
  destruct (Z.ltb_spec (next_expected_date a) (next_expected_date b));
    destruct (Z.ltb_spec (next_expected_date b) (next_expected_date c));
    destruct (Z.ltb_spec (next_expected_date a) (next_expected_date c));
    destruct (Z.eqb_spec (next_expected_date a) (next_expected_date b));
    destruct (Z.eqb_spec (next_expected_date b) (next_expected_date c));
    destruct (Z.eqb_spec (next_expected_date a) (next_expected_date c));
    simpl; try discriminate; try reflexivity; try lia.
  rewrite !Qle_bool_iff. lra.
Qed.

(** X12.  The displayed table of recurring expenses is a re-ordering of
    the emitted records in which the next expected dates never decrease
    down the table and, among rows with the same next expected date, the
    average amounts never increase. *)
Theorem recurring_df_order (df : list Transaction) :
  recurring_df df ≡ₚ recurring_records df
  /\ forall i j a b, (i < j)%nat ->
       recurring_df df !! i = Some a -> recurring_df df !! j = Some b ->
       (next_expected_date a <= next_expected_date b)%Z
       /\ (next_expected_date a = next_expected_date b ->
           avg_amount b <= avg_amount a).
Proof.
  unfold recurring_df. split; [apply sort_values_Permutation|].
  intros i j a b Hij Ha Hb.
  pose proof (StronglySorted_lookup _ _ i j a b
                (sort_values_StronglySorted next_then_amount
                   next_then_amount_total next_then_amount_trans
                   (recurring_records df)) Hij Ha Hb) as Hab.
  unfold follows, next_then_amount in Hab.
  destruct (Z.ltb_spec (next_expected_date a) (next_expected_date b)) as [Hlt|Hge];
    simpl in Hab.
  - split; [lia|]. intros He. lia.
  - apply andb_true_iff in Hab as [He Hamt]. apply Z.eqb_eq in He.
    split; [lia|]. intros _. apply Qle_bool_iff, Hamt.
Qed.

Lemma omap_vendor_named (rows : list Transaction) :
  omap tx_client_or_vendor (List.filter names_vendor rows)
  = omap tx_client_or_vendor rows.
Proof.
  induction rows as [|t rows IH]; [reflexivity|].
  simpl. unfold names_vendor at 1.
  destruct (tx_client_or_vendor t) as [w|] eqn:Hw; cbn [omap list_omap];
    rewrite ?Hw, IH; reflexivity.
Qed.

Lemma has_vendor_named (v : string) (rows : list Transaction) :
  List.filter (has_vendor v) (List.filter names_vendor rows)
  = List.filter (has_vendor v) rows.
Proof.
  rewrite filter_filter_and. apply filter_ext. intros t.
  unfold names_vendor, has_vendor. destruct (tx_client_or_vendor t); reflexivity.
Qed.

Lemma expenses_only_named (df : list Transaction) :
  expenses_only (List.filter (fun t => is_expense t && names_vendor t) df)
  = List.filter names_vendor (expenses_only df).
Proof.
  unfold expenses_only. rewrite !filter_filter_and. apply filter_ext.
  intros t. destruct (is_expense t), (names_vendor t); reflexivity.
Qed.

(** X13.  Only expense rows that name a counterparty reach the detector:
    dropping every row that is not an expense and every row without a
    counterparty from the ledger leaves the emitted records unchanged. *)
Theorem recurring_records_use_named_expenses_only (df : list Transaction) :
  recurring_records (List.filter (fun t => is_expense t && names_vendor t) df)
  = recurring_records df.
Proof.
  unfold recurring_records, groupby_client_or_vendor.
  rewrite expenses_only_named. unfold vendor_keys.
  rewrite omap_vendor_named. f_equal. apply map_ext. intros v.
  rewrite has_vendor_named. reflexivity.
Qed.

(** ** The late-payment tab, outcome by outcome *)

Lemma paid_client_delays (inv : list Invoice) (c : string) :
  map (fun r => inject_Z (snd r))
      (List.filter (fun r => String.eqb c (fst r)) (paid inv))
  = map inject_Z (client_delays inv c).
Proof.
  unfold paid, client_delays. induction inv as [|i inv IH]; [reflexivity|].
  cbn [omap list_omap].
  destruct (inv_paid_date i) as [p|]; cbn [fmap option_fmap option_map].
  - cbn [List.filter fst snd]. destruct (String.eqb c (inv_client i)); simpl.
    + f_equal. exact IH.
    + exact IH.
  - destruct (String.eqb c (inv_client i)); exact IH.
Qed.

Lemma paid_elem (inv : list Invoice) (c : string) :
  c ∈ map fst (paid inv)
  <-> exists i, i ∈ inv /\ inv_client i = c /\ inv_paid_date i <> None.
Proof.
  unfold paid. change (map ?f ?l) with (f <$> l). rewrite list_elem_of_fmap. split.
  - intros ([c' d] & -> & Hr). apply list_elem_of_omap in Hr as (i & Hi & Hp).
    exists i. destruct (inv_paid_date i); [|discriminate].
    injection Hp as <- _. simpl. repeat split; [exact Hi|discriminate].
  - intros (i & Hi & <- & Hp). destruct (inv_paid_date i) as [p|] eqn:Hpd; [|congruence].
    exists (inv_client i, (p - inv_due_date i)%Z). split; [reflexivity|].
    apply list_elem_of_omap. exists i. split; [exact Hi|]. rewrite Hpd. reflexivity.
Qed.

Lemma paid_nil (inv : list Invoice) :
  paid inv = [] <-> forall i, i ∈ inv -> inv_paid_date i = None.
Proof.
  unfold paid. induction inv as [|i inv IH]; cbn [omap list_omap].
  - split; [|reflexivity]. intros _ i Hi. inversion Hi.
  - destruct (inv_paid_date i) as [p|] eqn:Hp.
    + split; [discriminate|]. intros H. specialize (H i ltac:(left)). congruence.
    + rewrite IH. split.
      * intros H j Hj. apply elem_of_cons in Hj as [->|Hj]; [exact Hp|apply H, Hj].
      * intros H j Hj. apply H. right. exact Hj.
Qed.

Lemma delay_desc_total (a b : ClientDelay) :
  delay_desc a b = false -> delay_desc b a = true.
Proof. unfold delay_desc. rewrite <- not_true_iff_false, !Qle_bool_iff. lra. Qed.

Lemma delay_desc_trans (a b c : ClientDelay) :
  delay_desc a b = true -> delay_desc b c = true -> delay_desc a c = true.
Proof. unfold delay_desc. rewrite !Qle_bool_iff. lra. Qed.

Lemma late_stats_elem (inv : list Invoice) (s : ClientDelay) :
  s ∈ late_stats (paid inv)
  <-> (exists i, i ∈ inv /\ inv_client i = cd_client s /\ inv_paid_date i <> None)
      /\ delay_days s = mean_delay inv (cd_client s)
      /\ 0 < delay_days s.
Proof.
  unfold late_stats, mean_delay.
  rewrite elem_of_filter_bool, sort_values_elem, Qltb_lt.
  change (map ?f (sort_values ?le ?l)) with (f <$> sort_values le l).
  rewrite list_elem_of_fmap. split.
  - intros [(c & -> & Hc) Hpos]. simpl in *.
    apply sort_values_elem, elem_of_remove_dups, paid_elem in Hc.
    split; [exact Hc|]. split; [|exact Hpos].
    unfold mean. rewrite paid_client_delays. reflexivity.
  - intros (Hc & Hmean & Hpos). split; [|exact Hpos].
    exists (cd_client s). split.
    + destruct s as [c d]. simpl in *. rewrite Hmean. unfold mean.
      rewrite paid_client_delays. reflexivity.
    + apply sort_values_elem, elem_of_remove_dups, paid_elem, Hc.
Qed.

Lemma filter_StronglySorted {A : Type} (R : A -> A -> Prop) (p : A -> bool)
    (l : list A) :
  StronglySorted R l -> StronglySorted R (List.filter p l).
Proof.
  induction 1 as [|x l Hl IH Hx]; simpl; [constructor|].
  destruct (p x); [|exact IH]. constructor; [exact IH|].
  rewrite List.Forall_forall in *. intros y Hy.
  apply filter_In in Hy as [Hy _]. apply Hx, Hy.
Qed.

Lemma filter_map_NoDup {A K : Type} (key : A -> K) (p : A -> bool) (l : list A) :
  NoDup (map key l) -> NoDup (map key (List.filter p l)).
Proof.
  induction l as [|x l IH]; simpl; [constructor|].
  intros Hnd. apply NoDup_cons in Hnd as [Hx Hnd].
  destruct (p x); [|apply IH, Hnd]. simpl. apply NoDup_cons. split; [|apply IH, Hnd].
  intros Hin. apply Hx. change (map key ?l) with (key <$> l) in *.
  apply list_elem_of_fmap in Hin as (y & -> & Hy).
  apply elem_of_filter_bool in Hy as [Hy _]. apply list_elem_of_fmap_2, Hy.
Qed.

(** X14.  The late-client statistics list exactly the clients that have a
    paid invoice and a positive mean delay over their paid invoices, each
    with that mean; no client is listed twice, and the means never
    increase down the list. *)
Theorem late_stats_lists_late_clients (inv : list Invoice) :
  (forall s, s ∈ late_stats (paid inv)
     <-> (exists i, i ∈ inv /\ inv_client i = cd_client s
                    /\ inv_paid_date i <> None)
         /\ delay_days s = mean_delay inv (cd_client s)
         /\ 0 < delay_days s)
  /\ NoDup (map cd_client (late_stats (paid inv)))
  /\ (forall i j a b, (i < j)%nat ->
        late_stats (paid inv) !! i = Some a ->
        late_stats (paid inv) !! j = Some b ->
        delay_days b <= delay_days a).
Proof.
  split; [apply late_stats_elem|]. unfold late_stats. split.
  - apply filter_map_NoDup.
    change (map cd_client ?l) with (cd_client <$> l).
    rewrite sort_values_Permutation.
    change (map ?f ?l) with (f <$> l). rewrite <- list_fmap_compose.
    simpl. rewrite list_fmap_id.
    rewrite sort_values_Permutation. apply NoDup_remove_dups.
  - intros i j a b Hij Ha Hb. apply Qle_bool_iff.
    refine (StronglySorted_lookup (follows delay_desc) _ i j a b _ Hij Ha Hb).
    apply filter_StronglySorted, sort_values_StronglySorted.
    + exact delay_desc_total.
    + exact delay_desc_trans.
Qed.

Lemma late_stats_nil (inv : list Invoice) :
  late_stats (paid inv) = []
  <-> forall i, i ∈ inv -> inv_paid_date i <> None ->
                mean_delay inv (inv_client i) <= 0.
Proof.
  split.
  - intros Hnil i Hi Hp.
    destruct (Qlt_le_dec 0 (mean_delay inv (inv_client i))) as [Hpos|Hle];
      [|exact Hle].
    exfalso.
    assert (Hin : mkClientDelay (inv_client i) (mean_delay inv (inv_client i))
                  ∈ late_stats (paid inv)).
    { apply late_stats_elem. simpl. split; [|split; [reflexivity|exact Hpos]].
      exists i. auto. }
    rewrite Hnil in Hin. inversion Hin.
  - intros Hall. destruct (late_stats (paid inv)) as [|s rest] eqn:Hls;
      [reflexivity|].
    assert (Hin : s ∈ late_stats (paid inv)) by (rewrite Hls; left).
    apply late_stats_elem in Hin as ((i & Hi & Hc & Hp) & Hmean & Hpos).
    specialize (Hall i Hi Hp). rewrite Hc, <- Hmean in Hall. lra.
Qed.

Lemma rounded_clients (l : list ClientDelay) :
  map cd_client
    (map (fun s => mkClientDelay (cd_client s) (round_to (delay_days s) 1)) l)
  = map cd_client l.
Proof. rewrite map_map. apply map_ext. reflexivity. Qed.

(** The outcomes of [late_tab], for invoices whose issue and due dates are
    parsed dates: "no paid invoices" exactly when no invoice has a paid
    date, "no late clients" exactly when some invoice is paid and every
    client with a paid invoice has a mean delay of zero or less; otherwise
    a non-empty delay table. *)
Theorem late_tab_outcomes (inv : Table Invoice) :
  issubset required_invoice_cols (columns inv) = true ->
  (late_tab (Some inv) = NoPaidInvoices
   <-> forall i, i ∈ rows inv -> inv_paid_date i = None)
  /\ (late_tab (Some inv) = NoLateClients
      <-> (exists i, i ∈ rows inv /\ inv_paid_date i <> None)
          /\ forall i, i ∈ rows inv -> inv_paid_date i <> None ->
                       mean_delay (rows inv) (inv_client i) <= 0)
  /\ (forall stats, late_tab (Some inv) = LateStats stats ->
        stats <> []
        /\ map cd_client stats
           = map cd_client (late_stats (paid (rows inv)))).
Proof.
  intros Hschema. unfold late_tab. rewrite Hschema. cbn [negb].
  pose proof (paid_nil (rows inv)) as Hpn.
  pose proof (late_stats_nil (rows inv)) as Hln.
  destruct (paid (rows inv)) as [|p ps] eqn:Hpaid.
  - split; [|split].
    + split; [intros _; apply Hpn; reflexivity|reflexivity].
    + split; [discriminate|]. intros [(i & Hi & Hp) _]. exfalso.
      apply Hp. apply (proj1 Hpn eq_refl i Hi).
    + discriminate.
  - assert (Hsome : exists i, i ∈ rows inv /\ inv_paid_date i <> None).
    { assert (Hc : fst p ∈ map fst (paid (rows inv))) by (rewrite Hpaid; left).
      apply paid_elem in Hc as (i & Hi & _ & Hp). exists i. auto. }
    destruct (late_stats (p :: ps)) as [|s ss] eqn:Hls.
    + split; [|split].
      * split; [discriminate|]. intros Hnone. apply Hpn in Hnone. discriminate.
      * split; [|reflexivity]. intros _. split; [exact Hsome|].
        apply Hln. reflexivity.
      * discriminate.
    + split; [|split].
      * split; [discriminate|]. intros Hnone. apply Hpn in Hnone. discriminate.
      * split; [discriminate|]. intros [_ Hall]. apply Hln in Hall. discriminate.
      * intros stats [= <-]. split; [discriminate|].
        exact (rounded_clients (s :: ss)).
Qed.

(** ** Rounded figures *)

Lemma round_half_even_near (x : Q) :
  inject_Z (round_half_even x) - (1 # 2) <= x
  <= inject_Z (round_half_even x) + (1 # 2).
Proof.
  pose proof (Qfloor_le x) as Hlo. pose proof (Qlt_floor x) as Hhi.
  rewrite inject_Z_plus in Hhi. change (inject_Z 1) with 1 in Hhi.
  unfold round_half_even.
  destruct (Qcompare_spec (x - inject_Z (Qfloor x)) (1 # 2)) as [He|Hl|Hg].
  - destruct (Z.even (Qfloor x)); rewrite ?inject_Z_plus;
      change (inject_Z 1) with 1; split; lra.
  - split; lra.
  - rewrite inject_Z_plus. change (inject_Z 1) with 1. split; lra.
Qed.

Lemma round_to_1_near (x : Q) :
  x - (1 # 20) <= round_to x 1 <= x + (1 # 20).
Proof.
  unfold round_to. change (inject_Z (10 ^ Z.of_nat 1)) with (10 # 1).
  pose proof (round_half_even_near (x * (10 # 1))) as [Hlo Hhi].
  assert (E : inject_Z (round_half_even (x * (10 # 1))) / (10 # 1)
              == inject_Z (round_half_even (x * (10 # 1))) * (1 # 10)) by field.
  rewrite E. split; lra.
Qed.

Lemma round_to_2_near (x : Q) :
  x - (1 # 200) <= round_to x 2 <= x + (1 # 200).
Proof.
  unfold round_to. change (inject_Z (10 ^ Z.of_nat 2)) with (100 # 1).
  pose proof (round_half_even_near (x * (100 # 1))) as [Hlo Hhi].
  assert (E : inject_Z (round_half_even (x * (100 # 1))) / (100 # 1)
              == inject_Z (round_half_even (x * (100 # 1))) * (1 # 100)) by field.
  rewrite E. split; lra.
Qed.

Lemma round_half_even_lower (x : Q) (lo : Z) :
  inject_Z lo <= x -> (lo <= round_half_even x)%Z.
Proof.
  intros Hlo. pose proof (Qfloor_resp_le _ _ Hlo) as Hf. rewrite Qfloor_Z in Hf.
  destruct (round_half_even_floor x) as [->|[-> _]]; lia.
Qed.

Lemma round_to_1_nonneg (x : Q) : 0 <= x -> 0 <= round_to x 1.
Proof.
  intros Hx. unfold round_to. change (inject_Z (10 ^ Z.of_nat 1)) with (10 # 1).
  assert (H : (0 <= round_half_even (x * (10 # 1)))%Z).
  { apply round_half_even_lower. change (inject_Z 0) with 0. lra. }
  rewrite Zle_Qle in H. change (inject_Z 0) with 0 in H.
  assert (E : inject_Z (round_half_even (x * (10 # 1))) / (10 # 1)
              == inject_Z (round_half_even (x * (10 # 1))) * (1 # 10)) by field.
  rewrite E. lra.
Qed.

Lemma late_tab_LateStats (inv : Table Invoice) (stats : list ClientDelay) :
  late_tab (Some inv) = LateStats stats ->
  stats = map (fun s => mkClientDelay (cd_client s) (round_to (delay_days s) 1))
              (late_stats (paid (rows inv))).
Proof.
  unfold late_tab.
  destruct (negb (issubset required_invoice_cols (columns inv))); [discriminate|].
  destruct (paid (rows inv)) as [|p ps]; [discriminate|].
  destruct (late_stats (p :: ps)) as [|s ss]; [discriminate|].
  intros [= <-]. reflexivity.
Qed.

(** X16.  Every row of the displayed delay table belongs to a client with
    a paid invoice and a positive mean delay; the figure shown is that mean
    rounded to one decimal, so it is within 0.05 of the mean and is never
    negative (it can be 0.0). *)
Theorem displayed_delay_is_rounded_mean (inv : Table Invoice)
    (stats : list ClientDelay) (s : ClientDelay) :
  late_tab (Some inv) = LateStats stats ->
  s ∈ stats ->
  (exists i, i ∈ rows inv /\ inv_client i = cd_client s
             /\ inv_paid_date i <> None)
  /\ 0 < mean_delay (rows inv) (cd_client s)
  /\ delay_days s = round_to (mean_delay (rows inv) (cd_client s)) 1
  /\ mean_delay (rows inv) (cd_client s) - (1 # 20) <= delay_days s
     <= mean_delay (rows inv) (cd_client s) + (1 # 20)
  /\ 0 <= delay_days s.
Proof.
  intros Htab Hs. apply late_tab_LateStats in Htab. subst stats.
  change (map ?f ?l) with (f <$> l) in Hs.
  apply list_elem_of_fmap in Hs as (s0 & -> & Hs0).
  apply late_stats_elem in Hs0 as (Hc & Hmean & Hpos). simpl.
  rewrite Hmean in *.
  split; [exact Hc|]. split; [exact Hpos|]. split; [reflexivity|].
  split; [apply round_to_1_near|]. apply round_to_1_nonneg. lra.
Qed.

Lemma Qsum_map_Permutation {A : Type} (f : A -> Q) (l1 l2 : list A) :
  l1 ≡ₚ l2 -> Qsum (map f l1) == Qsum (map f l2).
Proof.
  induction 1 as [|x l1 l2 _ IH|x y l|l1 l2 l3 _ IH1 _ IH2]; simpl.
  - reflexivity.
  - rewrite !Qsum_cons, IH. reflexivity.
  - rewrite !Qsum_cons. ring.
  - rewrite IH1. exact IH2.
Qed.

Lemma mean_Permutation {A : Type} (f : A -> Q) (l1 l2 : list A) :
  l1 ≡ₚ l2 -> mean (map f l1) == mean (map f l2).
Proof.
  intros Hp. unfold mean.
  rewrite (Qsum_map_Permutation f l1 l2 Hp), !length_map, (Permutation_length Hp).
  reflexivity.
Qed.

Lemma recurring_record_amount (v : string) (group : list Transaction)
    (rec : RecurringExpense) :
  recurring_record v group = Some rec ->
  avg_amount rec
  = round_to (mean (map tx_amount (sort_values date_asc group))) 2.
Proof.
  unfold recurring_record.
  destruct (length group <? 3)%nat; [discriminate|].
  destruct (length (map tx_date (sort_values date_asc group)) <? 3)%nat; [discriminate|].
  destruct (gaps (map tx_date (sort_values date_asc group))) as [|g gs]; [discriminate|].
  destruct (Qltb (avg_gap (g :: gs)) 5 || Qltb 45 (avg_gap (g :: gs))); [discriminate|].
  intros [= <-]. reflexivity.
Qed.

(** X17.  The figures of an emitted record are rounded values: the
    average gap shown is within 0.05 of the counterparty's average gap, and
    the average amount shown is within 0.005 of the mean of the unsigned
    amounts of the counterparty's expense rows. *)
Theorem recurring_record_figures_are_rounded (df : list Transaction)
    (rec : RecurringExpense) :
  rec ∈ recurring_records df ->
  group_avg_gap (vendor_expenses df (vendor rec)) - (1 # 20)
    <= avg_gap_days rec
    <= group_avg_gap (vendor_expenses df (vendor rec)) + (1 # 20)
  /\ mean (map tx_amount (vendor_expenses df (vendor rec))) - (1 # 200)
       <= avg_amount rec
       <= mean (map tx_amount (vendor_expenses df (vendor rec))) + (1 # 200).
Proof.
  intros Hrec. apply recurring_records_elem in Hrec.
  destruct (recurring_record_Some _ _ _ Hrec) as (_ & _ & _ & _ & Hgap).
  pose proof (recurring_record_amount _ _ _ Hrec) as Hamt.
  split.
  - rewrite Hgap. apply round_to_1_near.
  - rewrite Hamt.
    rewrite <- (mean_Permutation tx_amount _ _
                  (sort_values_Permutation date_asc
                     (vendor_expenses df (vendor rec)))).
    apply round_to_2_near.
Qed.

(** ** The outcomes of a run *)

Lemma issubset_spec (required cols : list string) :
  issubset required cols = true <-> forall c, c ∈ required -> c ∈ cols.
Proof.
  unfold issubset. rewrite forallb_forall. split.
  - intros H c Hc. apply list_elem_of_In in Hc. specialize (H c Hc).
    apply existsb_exists in H as (x & Hx & He). apply String.eqb_eq in He.
    subst x. apply list_elem_of_In, Hx.
  - intros H c Hc. apply existsb_exists. exists c.
    split; [apply list_elem_of_In, H, list_elem_of_In, Hc|apply String.eqb_refl].
Qed.

Lemma has_column_spec (c : string) (cols : list string) :
  existsb (String.eqb c) cols = true <-> c ∈ cols.
Proof.
  rewrite existsb_exists. split.
  - intros (x & Hx & He). apply String.eqb_eq in He. subst x.
    apply list_elem_of_In, Hx.
  - intros Hc. exists c. split; [apply list_elem_of_In, Hc|apply String.eqb_refl].
Qed.

(** The outcomes of [app] case by case, for a table whose cells all have
    the type of their column. *)
Lemma app_outcome_cases (t : Table Transaction) (inv : option (Table Invoice))
    (sb th : Q) :
  (app (Some t) inv sb th = TransactionSchemaError
   <-> exists c, c ∈ required_cols /\ c ∉ columns t)
  /\ ((exists rep, app (Some t) inv sb th = Rendered rep)
      <-> (forall c, c ∈ required_cols -> c ∈ columns t)
          /\ rows t <> []
          /\ ("client_or_vendor" : string) ∈ columns t)
  /\ (app (Some t) inv sb th = Raised
      <-> (forall c, c ∈ required_cols -> c ∈ columns t)
          /\ (rows t = [] \/ ("client_or_vendor" : string) ∉ columns t)).
Proof.
  unfold app.
  pose proof (issubset_spec required_cols (columns t)) as Hsub.
  pose proof (has_column_spec "client_or_vendor" (columns t)) as Hcol.
  destruct (issubset required_cols (columns t)) eqn:Hs; cbn [negb].
  - assert (Hall : forall c, c ∈ required_cols -> c ∈ columns t)
      by (apply Hsub; reflexivity).
    destruct (rows t) as [|r rs] eqn:Hrows.
    + cbn [forecast_df start_date]. split; [|split].
      * split; [discriminate|]. intros (c & Hc & Hnc). exfalso. auto.
      * split; [intros [rep Hrep]; discriminate|]. intros (_ & Hne & _). congruence.
      * split; [|reflexivity]. intros _. split; [exact Hall|]. left. reflexivity.
    + destruct (forecast_df sb (r :: rs)) as [fc|] eqn:Hfc;
        [|unfold forecast_df in Hfc; simpl in Hfc; discriminate].
      destruct (existsb (String.eqb "client_or_vendor") (columns t)) eqn:Hv;
        cbn [negb].
      * assert (Hin : ("client_or_vendor" : string) ∈ columns t)
          by (apply Hcol; reflexivity).
        split; [|split].
        -- split; [discriminate|]. intros (c & Hc & Hnc). exfalso. auto.
        -- split; [|intros _; eexists; reflexivity].
           intros _. split; [exact Hall|]. split; [discriminate|exact Hin].
        -- split; [discriminate|]. intros (_ & [Hnil|Hnc]); [discriminate|].
           exfalso. auto.
      * assert (Hnin : ("client_or_vendor" : string) ∉ columns t).
        { intros Hin. apply Hcol in Hin. congruence. }
        split; [|split].
        -- split; [discriminate|]. intros (c & Hc & Hnc). exfalso. auto.
        -- split; [intros [rep Hrep]; discriminate|]. intros (_ & _ & Hin).
           exfalso. auto.
        -- split; [|reflexivity]. intros _. split; [exact Hall|]. right. exact Hnin.
  - assert (Hmiss : exists c, c ∈ required_cols /\ c ∉ columns t).
    { destruct (decide (Forall (fun c => c ∈ columns t) required_cols))
        as [Hall|Hex].
      - exfalso. rewrite Forall_forall in Hall. apply Hsub in Hall. discriminate.
      - apply not_Forall_Exists in Hex; [|intros c; apply _].
        apply Exists_exists in Hex as (c & Hc & Hnc). exists c. auto. }
    split; [|split].
    + split; [intros _; exact Hmiss|reflexivity].
    + split; [intros [rep Hrep]; discriminate|].
      intros (Hall & _). apply Hsub in Hall. discriminate.
    + split; [discriminate|]. intros (Hall & _). apply Hsub in Hall. discriminate.
Qed.

(** X18.  With a transactions file uploaded, the run stops with the schema
    error exactly when one of [date], [type], [amount] is missing from the
    header.  A report is rendered only if these three columns and
    [client_or_vendor] are present and the file has at least one row: a
    file that has the three columns but no rows, or no [client_or_vendor]
    column, ends in an uncaught exception. *)
Theorem app_schema_and_render_conditions (t : Table Transaction)
    (inv : option (Table Invoice)) (sb th : Q) :
  (app (Some t) inv sb th = TransactionSchemaError
   <-> exists c, c ∈ required_cols /\ c ∉ columns t)
  /\ (forall rep, app (Some t) inv sb th = Rendered rep ->
        (forall c, c ∈ required_cols -> c ∈ columns t)
        /\ rows t <> []
        /\ ("client_or_vendor" : string) ∈ columns t)
  /\ ((forall c, c ∈ required_cols -> c ∈ columns t) ->
      rows t = [] \/ ("client_or_vendor" : string) ∉ columns t ->
      app (Some t) inv sb th = Raised).
Proof.
  destruct (app_outcome_cases t inv sb th) as (Hschema & Hrender & Hraise).
  split; [exact Hschema|]. split.
  - intros rep Hrep. apply Hrender. exists rep. exact Hrep.
  - intros Hall Hbad. apply Hraise. split; assumption.
Qed.

(** ** The further properties at the sample inputs *)

Lemma balance_is_running_total_sample :
  forecast_df 500 sample_ledger = Some sample_forecast
  /\ sample_second_day ∈ sample_forecast
  /\ fd_balance sample_second_day
     == 500 + Qsum (map signed_amount
                      (List.filter (up_to (fd_date sample_second_day)) sample_ledger)).
Proof.
  assert (Hfc : forecast_df 500 sample_ledger = Some sample_forecast)
    by (vm_compute; reflexivity).
  assert (Hin : sample_second_day ∈ sample_forecast).
  { apply list_elem_of_In. vm_compute. right. left. reflexivity. }
  split; [exact Hfc|]. split; [exact Hin|].
  exact (balance_is_running_total 500 sample_ledger sample_forecast
           sample_second_day Hfc Hin).
Defined.

Lemma starting_balance_shifts_balances_sample :
  forecast_df 500 sample_ledger = Some sample_forecast
  /\ exists fc',
       forecast_df (500 + 250) sample_ledger = Some fc'
       /\ length fc' = length sample_forecast
       /\ forall i r r', sample_forecast !! i = Some r -> fc' !! i = Some r' ->
            fd_date r' = fd_date r
            /\ fd_daily_net r' = fd_daily_net r
            /\ fd_balance r' == fd_balance r + 250.
Proof.
  assert (Hfc : forecast_df 500 sample_ledger = Some sample_forecast)
    by (vm_compute; reflexivity).
  split; [exact Hfc|].
  exact (starting_balance_shifts_balances 500 250 sample_ledger sample_forecast Hfc).
Defined.

Lemma forecast_ignores_row_order_sample :
  sample_ledger ≡ₚ rev sample_ledger
  /\ forecast_df 500 sample_ledger = Some sample_forecast
  /\ exists fc2,
       forecast_df 500 (rev sample_ledger) = Some fc2
       /\ length fc2 = length sample_forecast
       /\ forall i r1 r2, sample_forecast !! i = Some r1 -> fc2 !! i = Some r2 ->
            fd_date r2 = fd_date r1
            /\ fd_daily_net r2 == fd_daily_net r1
            /\ fd_balance r2 == fd_balance r1.
Proof.
  assert (Hp : sample_ledger ≡ₚ rev sample_ledger) by apply Permutation_rev.
  assert (Hfc : forecast_df 500 sample_ledger = Some sample_forecast)
    by (vm_compute; reflexivity).
  split; [exact Hp|]. split; [exact Hfc|].
  exact (forecast_ignores_row_order 500 sample_ledger (rev sample_ledger)
           sample_forecast Hp Hfc).
Defined.

Lemma no_risk_iff_threshold_below_lowest_sample :
  lowest_row sample_forecast = Some sample_lowest_day
  /\ (num_risk_days 900 sample_forecast = 0%nat
      <-> 900 <= fd_balance sample_lowest_day)
  /\ (risk_message 900 sample_forecast = StaysAbove
      <-> 900 <= fd_balance sample_lowest_day).
Proof.
  assert (Hlow : lowest_row sample_forecast = Some sample_lowest_day)
    by (vm_compute; reflexivity).
  split; [exact Hlow|].
  exact (no_risk_iff_threshold_below_lowest 900 sample_forecast
           sample_lowest_day Hlow).
Defined.

Lemma next_expected_date_follows_last_payment_sample :
  rent_record ∈ recurring_records vendor_ledger
  /\ (last_payment_date rent_record + 5 <= next_expected_date rent_record
      <= last_payment_date rent_record + 45)%Z.
Proof.
  assert (Hin : rent_record ∈ recurring_records vendor_ledger).
  { apply list_elem_of_In. vm_compute. right. left. reflexivity. }
  split; [exact Hin|].
  exact (proj2 (proj2 (proj2
           (next_expected_date_follows_last_payment vendor_ledger rent_record Hin)))).
Defined.

Lemma avg_gap_is_span_over_count_sample :
  rent_record ∈ recurring_records vendor_ledger
  /\ exists first,
       (exists t, t ∈ vendor_expenses vendor_ledger (vendor rent_record)
                  /\ tx_date t = first)
       /\ (forall t, t ∈ vendor_expenses vendor_ledger (vendor rent_record) ->
                     (first <= tx_date t)%Z)
       /\ group_avg_gap (vendor_expenses vendor_ledger (vendor rent_record))
          = inject_Z (last_payment_date rent_record - first)
            / inject_Z
                (Z.of_nat (length (vendor_expenses vendor_ledger (vendor rent_record)))
                 - 1).
Proof.
  assert (Hin : rent_record ∈ recurring_records vendor_ledger).
  { apply list_elem_of_In. vm_compute. right. left. reflexivity. }
  split; [exact Hin|].
  exact (avg_gap_is_span_over_count vendor_ledger rent_record Hin).
Defined.

Lemma recurring_record_figures_are_rounded_sample :
  acme_record ∈ recurring_records vendor_ledger
  /\ group_avg_gap (vendor_expenses vendor_ledger (vendor acme_record)) - (1 # 20)
       <= avg_gap_days acme_record
       <= group_avg_gap (vendor_expenses vendor_ledger (vendor acme_record)) + (1 # 20)
  /\ mean (map tx_amount (vendor_expenses vendor_ledger (vendor acme_record)))
       - (1 # 200)
       <= avg_amount acme_record
       <= mean (map tx_amount (vendor_expenses vendor_ledger (vendor acme_record)))
          + (1 # 200).
Proof.
  assert (Hin : acme_record ∈ recurring_records vendor_ledger).
  { apply list_elem_of_In. vm_compute. left. reflexivity. }
  split; [exact Hin|].
  exact (recurring_record_figures_are_rounded vendor_ledger acme_record Hin).
Defined.

Lemma late_tab_outcomes_sample :
  issubset required_invoice_cols (columns sample_invoices) = true
  /\ (late_tab (Some sample_invoices) = NoPaidInvoices
      <-> forall i, i ∈ rows sample_invoices -> inv_paid_date i = None).
Proof.
  assert (Hs : issubset required_invoice_cols (columns sample_invoices) = true)
    by reflexivity.
  split; [exact Hs|].
  exact (proj1 (late_tab_outcomes sample_invoices Hs)).
Defined.

Lemma displayed_delay_is_rounded_mean_sample :
  late_tab (Some sample_invoices) = LateStats [sample_late_client]
  /\ sample_late_client ∈ [sample_late_client]
  /\ 0 < mean_delay (rows sample_invoices) (cd_client sample_late_client)
  /\ 0 <= delay_days sample_late_client.
Proof.
  assert (Htab : late_tab (Some sample_invoices) = LateStats [sample_late_client])
    by (vm_compute; reflexivity).
  assert (Hin : sample_late_client ∈ [sample_late_client]) by left.
  pose proof (displayed_delay_is_rounded_mean sample_invoices [sample_late_client]
                sample_late_client Htab Hin) as (_ & Hpos & _ & _ & Hnn).
  split; [exact Htab|]. split; [exact Hin|]. split; [exact Hpos|exact Hnn].
Defined.

(** * The forecast in machine arithmetic *)

Section MachineFacts.
Context (ops : Machine.CellOps).



Lemma machine_daily_net_length (df : list (Machine.Row (Machine.cell ops)))
    (index : list Z) :
  length (Machine.daily_net ops df index) = length index.
Proof. unfold Machine.daily_net. apply length_map. Qed.


Lemma machine_cumsum_from_length (a : Machine.cell ops) (l : list (Machine.cell ops)) :
  length (Machine.cumsum_from ops a l) = length l.
Proof.
  revert a. induction l as [|x l IH]; intros a; simpl; [reflexivity|].
  now rewrite IH.
Qed.

Lemma machine_cumsum_length (l : list (Machine.cell ops)) :
  length (Machine.cumsum ops l) = length l.
Proof. destruct l; simpl; [reflexivity|]. now rewrite machine_cumsum_from_length. Qed.

Lemma machine_cumsum_head (l : list (Machine.cell ops)) :
  Machine.cumsum ops l !! 0%nat = l !! 0%nat.
Proof. destruct l; reflexivity. Qed.

Lemma machine_cumsum_from_step (a : Machine.cell ops) (l : list (Machine.cell ops))
    (i : nat) (c y : Machine.cell ops) :
  Machine.cumsum_from ops a l !! i = Some c ->
  l !! S i = Some y ->
  Machine.cumsum_from ops a l !! S i = Some (Machine.cell_add ops c y).
Proof.
  revert a i. induction l as [|z l IH]; intros a i Hc Hy; [discriminate|].
  destruct i as [|i]; simpl in *.
  - injection Hc as <-. destruct l as [|w l]; [discriminate|].
    simpl in *. injection Hy as <-. reflexivity.
  - eapply IH; eauto.
Qed.

Lemma machine_cumsum_step (l : list (Machine.cell ops)) (i : nat)
    (c y : Machine.cell ops) :
  Machine.cumsum ops l !! i = Some c ->
  l !! S i = Some y ->
  Machine.cumsum ops l !! S i = Some (Machine.cell_add ops c y).
Proof.
  destruct l as [|z l]; [discriminate|]. intros Hc Hy.
  destruct i as [|i]; simpl in *.
  - injection Hc as <-. destruct l as [|w l]; [discriminate|].
    simpl in *. injection Hy as <-. reflexivity.
  - eapply machine_cumsum_from_step; eauto.
Qed.

Lemma machine_frame_lookup (ds : list Z) (ns : list (Machine.cell ops))
    (bs : list float) (i : nat) (r : Machine.Day (Machine.cell ops)) :
  Machine.frame ops ds ns bs !! i = Some r ->
  ds !! i = Some (Machine.day_date r)
  /\ ns !! i = Some (Machine.day_daily_net r)
  /\ bs !! i = Some (Machine.day_balance r).
Proof.
  unfold Machine.frame. intros H.
  apply lookup_zip_with_Some in H as (d & [n b] & -> & Hd & Hnb).
  apply lookup_zip_with_Some in Hnb as (n' & b' & [= -> ->] & Hn & Hb).
  simpl. auto.
Qed.

Lemma machine_start_date_is_Some (df : list (Machine.Row (Machine.cell ops))) :
  df <> [] -> exists s, Machine.start_date ops df = Some s.
Proof. destruct df as [|r rs]; [congruence|]. intros _. eexists. reflexivity. Qed.

Lemma machine_forecast_df_Some (sb : float)
    (df : list (Machine.Row (Machine.cell ops))) (s : Z) :
  Machine.start_date ops df = Some s ->
  Machine.forecast_df ops sb df
  = Some (Machine.frame ops (date_range s (end_date s))
            (Machine.daily_net ops df (date_range s (end_date s)))
            (Machine.balance ops sb
               (Machine.cumsum ops
                  (Machine.daily_net ops df (date_range s (end_date s)))))).
Proof. intros Hs. unfold Machine.forecast_df. rewrite Hs. reflexivity. Qed.

Lemma machine_forecast_df_length (sb : float)
    (df : list (Machine.Row (Machine.cell ops)))
    (fc : list (Machine.Day (Machine.cell ops))) :
  Machine.forecast_df ops sb df = Some fc -> length fc = 90%nat.
Proof.
  unfold Machine.forecast_df.
  destruct (Machine.start_date ops df) as [s|]; [|discriminate].
  intros [= <-]. unfold Machine.frame, Machine.balance.
  rewrite !length_zip_with, length_map, machine_cumsum_length,
    machine_daily_net_length, date_range_length. reflexivity.
Qed.

(** A row of the machine forecast, column by column. *)
Lemma machine_forecast_df_lookup (sb : float)
    (df : list (Machine.Row (Machine.cell ops))) (s : Z)
    (fc : list (Machine.Day (Machine.cell ops))) (i : nat)
    (r : Machine.Day (Machine.cell ops)) :
  Machine.start_date ops df = Some s ->
  Machine.forecast_df ops sb df = Some fc ->
  fc !! i = Some r ->
  Machine.day_date r = (s + Z.of_nat i)%Z
  /\ Machine.daily_net ops df (date_range s (end_date s)) !! i
     = Some (Machine.day_daily_net r)
  /\ exists c,
       Machine.cumsum ops (Machine.daily_net ops df (date_range s (end_date s))) !! i
       = Some c
       /\ Machine.day_balance r = PrimFloat.add sb (Machine.to_float64 ops c).
Proof.
  intros Hs Hfc Hr. rewrite (machine_forecast_df_Some sb df s Hs) in Hfc.
  injection Hfc as <-. apply machine_frame_lookup in Hr as (Hd & Hn & Hb).
  apply date_range_lookup in Hd as [Hd _].
  unfold Machine.balance in Hb. change (map ?f ?l) with (f <$> l) in Hb.
  apply list_lookup_fmap_Some in Hb as (c & Hc & Hb).
  split; [exact Hd|]. split; [exact Hn|]. exists c. split; [exact Hb|exact Hc].
Qed.

End MachineFacts.

(** C2, as stated, fails: with a float64 amount column, a starting balance
    of 0.1 and incomes of 0.2 and 0.3 on consecutive days, the second
    balance is 0.1 + (0.2 + 0.3) = 0.6, while the first balance plus the
    second daily net is (0.1 + 0.2) + 0.3 = 0.6000000000000001. *)
Lemma float_balance_recurrence_fails :
  exists fc r0 r1,
    Machine.forecast_df Machine.float64 (1 / 10)%float float_ledger_one_per_day
    = Some fc
    /\ fc !! 0%nat = Some r0
    /\ fc !! 1%nat = Some r1
    /\ Machine.day_balance r0
       = PrimFloat.add (1 / 10)%float (Machine.day_daily_net r0)
    /\ PrimFloat.eqb (Machine.day_balance r1)
         (PrimFloat.add (Machine.day_balance r0) (Machine.day_daily_net r1))
       = false.
Proof.
  eexists. eexists. eexists.
  split; [vm_compute; reflexivity|].
  split; [vm_compute; reflexivity|].
  split; [vm_compute; reflexivity|].
  split; vm_compute; reflexivity.
Qed.

(** C2, amended.  Whatever the arithmetic of the amount column, a
    non-empty ledger has a forecast of 90 days whose balances are the
    float64 sums of the starting balance and the running sum of the daily
    nets: the running sum starts as the first daily net and each later
    entry adds that day's net to the entry before, in the column's own
    addition.  So the first balance is the starting balance plus the first
    daily net, and every later balance is the starting balance plus (the
    running sum before plus that day's net). *)
Theorem machine_balance_adds_running_sum (ops : Machine.CellOps) (sb : float)
    (df : list (Machine.Row (Machine.cell ops))) :
  df <> [] ->
  exists fc running,
    Machine.forecast_df ops sb df = Some fc
    /\ length fc = 90%nat
    /\ length running = 90%nat
    /\ (forall i r, fc !! i = Some r ->
          exists c, running !! i = Some c
                    /\ Machine.day_balance r
                       = PrimFloat.add sb (Machine.to_float64 ops c))
    /\ (forall r, fc !! 0%nat = Some r ->
          running !! 0%nat = Some (Machine.day_daily_net r)
          /\ Machine.day_balance r
             = PrimFloat.add sb (Machine.to_float64 ops (Machine.day_daily_net r)))
    /\ (forall i c r', running !! i = Some c -> fc !! S i = Some r' ->
          running !! S i
          = Some (Machine.cell_add ops c (Machine.day_daily_net r'))
          /\ Machine.day_balance r'
             = PrimFloat.add sb
                 (Machine.to_float64 ops
                    (Machine.cell_add ops c (Machine.day_daily_net r')))).
Proof.
  intros Hne. destruct (machine_start_date_is_Some ops df Hne) as [s Hs].
  pose proof (machine_forecast_df_Some ops sb df s Hs) as Hfc.
  set (dn := Machine.daily_net ops df (date_range s (end_date s))) in *.
  eexists. exists (Machine.cumsum ops dn).
  split; [exact Hfc|].
  split; [exact (machine_forecast_df_length ops _ _ _ Hfc)|].
  split.
  { unfold dn. rewrite machine_cumsum_length, machine_daily_net_length.
    apply date_range_length. }
  split; [|split].
  - intros i r Hr.
    destruct (machine_forecast_df_lookup ops _ _ _ _ _ _ Hs Hfc Hr) as (_ & _ & Hc).
    exact Hc.
  - intros r Hr.
    destruct (machine_forecast_df_lookup ops _ _ _ _ _ _ Hs Hfc Hr)
      as (_ & Hn & c & Hc & Hb).
    fold dn in Hn, Hc. rewrite machine_cumsum_head, Hn in Hc.
    injection Hc as <-. split; [|exact Hb].
    rewrite machine_cumsum_head. exact Hn.
  - intros i c r' Hc Hr'.
    destruct (machine_forecast_df_lookup ops _ _ _ _ _ _ Hs Hfc Hr')
      as (_ & Hn' & c' & Hc' & Hb').
    fold dn in Hn', Hc'.
    pose proof (machine_cumsum_step ops dn i c _ Hc Hn') as Hstep.
    split; [exact Hstep|]. rewrite Hstep in Hc'. injection Hc' as <-. exact Hb'.
Qed.



Lemma machine_balance_adds_running_sum_sample :
  float_ledger_one_per_day <> []
  /\ exists fc running,
       Machine.forecast_df Machine.float64 (1 / 10)%float float_ledger_one_per_day
       = Some fc
       /\ length fc = 90%nat
       /\ length running = 90%nat
       /\ (forall i r, fc !! i = Some r ->
             exists c, running !! i = Some c
                       /\ Machine.day_balance r
                          = PrimFloat.add (1 / 10)%float
                              (Machine.to_float64 Machine.float64 c))
       /\ (forall r, fc !! 0%nat = Some r ->
             running !! 0%nat = Some (Machine.day_daily_net r)
             /\ Machine.day_balance r
                = PrimFloat.add (1 / 10)%float
                    (Machine.to_float64 Machine.float64 (Machine.day_daily_net r)))
       /\ (forall i c r', running !! i = Some c -> fc !! S i = Some r' ->
             running !! S i
             = Some (Machine.cell_add Machine.float64 c (Machine.day_daily_net r'))
             /\ Machine.day_balance r'
                = PrimFloat.add (1 / 10)%float
                    (Machine.to_float64 Machine.float64
                       (Machine.cell_add Machine.float64 c
                          (Machine.day_daily_net r')))).
Proof.
  assert (H : float_ledger_one_per_day <> [])
    by (unfold float_ledger_one_per_day; discriminate).
  split; [exact H|].
  exact (machine_balance_adds_running_sum Machine.float64 (1 / 10)%float
           float_ledger_one_per_day H).
Defined.


(** * The late-payment tab on raw date cells *)

Lemma late_stats_pairs_elem (pd : list (string * Z)) (s : ClientDelay) :
  s ∈ late_stats pd
  <-> cd_client s ∈ map fst pd
      /\ delay_days s
         = mean (map (fun r => inject_Z (snd r))
                     (List.filter (fun r => String.eqb (cd_client s) (fst r)) pd))
      /\ 0 < delay_days s.
Proof.
  unfold late_stats.
  rewrite elem_of_filter_bool, sort_values_elem, Qltb_lt.
  change (map ?f (sort_values ?le ?l)) with (f <$> sort_values le l).
  rewrite list_elem_of_fmap. split.
  - intros [(c & -> & Hc) Hpos]. simpl in *.
    apply (proj1 (sort_values_elem String.leb _ c)) in Hc.
    apply (proj1 (elem_of_remove_dups _ c)) in Hc.
    split; [exact Hc|]. split; [reflexivity|exact Hpos].
  - intros (Hc & Hmean & Hpos). split; [|exact Hpos].
    exists (cd_client s). split.
    + destruct s as [c d]. simpl in *. rewrite Hmean. reflexivity.
    + apply sort_values_elem, elem_of_remove_dups, Hc.
Qed.

Lemma raw_delays_of_client (inv : list RawInvoice) (c : string) :
  map (fun r => inject_Z (snd r))
      (List.filter (fun r => String.eqb c (fst r)) (raw_delays (raw_paid inv)))
  = map inject_Z (raw_client_delays inv c).
Proof.
  unfold raw_delays, raw_paid, raw_client_delays.
  induction inv as [|i inv IH]; [reflexivity|].
  cbn [omap list_omap].
  destruct (raw_paid_date i) as [p|], (raw_client i) as [c'|],
    (raw_due_date i) as [d| |]; cbn [omap list_omap List.filter fst snd];
    try exact IH.
  destruct (String.eqb c c'); simpl; [f_equal|]; exact IH.
Qed.

Lemma raw_delays_clients (inv : list RawInvoice) (c : string) :
  c ∈ map fst (raw_delays (raw_paid inv)) <-> raw_client_delays inv c <> [].
Proof.
  unfold raw_delays, raw_paid, raw_client_delays.
  induction inv as [|i inv IH]; cbn [omap list_omap map].
  - split; [intros H; inversion H|congruence].
  - destruct (raw_paid_date i) as [p|], (raw_client i) as [c'|],
      (raw_due_date i) as [d| |]; cbn [omap list_omap map fst]; try exact IH.
    destruct (String.eqb_spec c c') as [->|Hne].
    + split; [discriminate|]. intros _. left.
    + rewrite elem_of_cons. rewrite IH. split; [intros [?|?]; [congruence|assumption]|].
      intros H. right. exact H.
Qed.

Lemma raw_paid_nil (inv : list RawInvoice) :
  raw_paid inv = [] <-> forall i, i ∈ inv -> raw_paid_date i = None.
Proof.
  unfold raw_paid. induction inv as [|i inv IH]; cbn [omap list_omap].
  - split; [|reflexivity]. intros _ i Hi. inversion Hi.
  - destruct (raw_paid_date i) as [p|] eqn:Hp.
    + split; [discriminate|]. intros H. specialize (H i ltac:(left)). congruence.
    + rewrite IH. split.
      * intros H j Hj. apply elem_of_cons in Hj as [->|Hj]; [exact Hp|apply H, Hj].
      * intros H j Hj. apply H. right. exact Hj.
Qed.

Lemma forallb_false_elem {A : Type} (f : A -> bool) (l : list A) :
  forallb f l = false -> exists x, x ∈ l /\ f x = false.
Proof.
  induction l as [|x l IH]; simpl; [discriminate|].
  destruct (f x) eqn:Hx; simpl.
  - intros H. destruct (IH H) as (y & Hy & Hfy). exists y. split; [right|]; assumption.
  - intros _. exists x. split; [left|exact Hx].
Qed.

Lemma strict_dates_parse_spec (inv : list RawInvoice) :
  strict_dates_parse inv = true <-> dates_parse inv.
Proof.
  unfold strict_dates_parse, dates_parse. rewrite forallb_forall. split.
  - intros H i Hi. apply list_elem_of_In in Hi. specialize (H i Hi).
    apply andb_true_iff in H as [H1 H2].
    destruct (raw_issue_date i), (raw_due_date i); simpl in *;
      split; congruence.
  - intros H i Hi. apply list_elem_of_In in Hi. destruct (H i Hi) as [H1 H2].
    destruct (raw_issue_date i), (raw_due_date i); simpl; congruence.
Qed.

Lemma raw_late_stats_elem (inv : list RawInvoice) (s : ClientDelay) :
  s ∈ late_stats (raw_delays (raw_paid inv))
  <-> raw_client_delays inv (cd_client s) <> []
      /\ delay_days s = raw_mean_delay inv (cd_client s)
      /\ 0 < delay_days s.
Proof.
  rewrite late_stats_pairs_elem, raw_delays_clients, raw_delays_of_client.
  reflexivity.
Qed.

Lemma raw_late_stats_nil (inv : list RawInvoice) :
  late_stats (raw_delays (raw_paid inv)) = []
  <-> forall c, raw_client_delays inv c <> [] -> raw_mean_delay inv c <= 0.
Proof.
  split.
  - intros Hnil c Hc.
    destruct (Qlt_le_dec 0 (raw_mean_delay inv c)) as [Hpos|Hle]; [|exact Hle].
    exfalso.
    assert (Hin : mkClientDelay c (raw_mean_delay inv c)
                  ∈ late_stats (raw_delays (raw_paid inv))).
    { apply raw_late_stats_elem. simpl. auto. }
    rewrite Hnil in Hin. inversion Hin.
  - intros Hall.
    destruct (late_stats (raw_delays (raw_paid inv))) as [|s rest] eqn:Hls;
      [reflexivity|].
    assert (Hin : s ∈ late_stats (raw_delays (raw_paid inv))) by (rewrite Hls; left).
    apply raw_late_stats_elem in Hin as (Hc & Hmean & Hpos).
    specialize (Hall _ Hc). rewrite <- Hmean in Hall. lra.
Qed.

(** X15.  For an invoice file that passes the schema check: the tab raises
    exactly when some issue date or due date is unparseable.  Otherwise it
    reports "no paid invoices" exactly when no invoice has a paid date, and
    "no late clients" exactly when some invoice is paid and every client
    that has a paid invoice with a due date has a mean delay of zero or
    less; in the remaining case it shows a non-empty table whose rows are
    clients with a positive mean delay. *)
Theorem late_run_outcomes (inv : Table RawInvoice) :
  issubset required_invoice_cols (columns inv) = true ->
  (late_run (Some inv) = LateRaised
   <-> exists i, i ∈ rows inv
                 /\ (raw_issue_date i = BadDate \/ raw_due_date i = BadDate))
  /\ (late_run (Some inv) = LateShown NoPaidInvoices
      <-> dates_parse (rows inv)
          /\ forall i, i ∈ rows inv -> raw_paid_date i = None)
  /\ (late_run (Some inv) = LateShown NoLateClients
      <-> dates_parse (rows inv)
          /\ (exists i, i ∈ rows inv /\ raw_paid_date i <> None)
          /\ forall c, raw_client_delays (rows inv) c <> [] ->
                       raw_mean_delay (rows inv) c <= 0)
  /\ (forall stats, late_run (Some inv) = LateShown (LateStats stats) ->
        dates_parse (rows inv)
        /\ stats <> []
        /\ forall s, s ∈ stats ->
             raw_client_delays (rows inv) (cd_client s) <> []
             /\ 0 < raw_mean_delay (rows inv) (cd_client s)
             /\ delay_days s = round_to (raw_mean_delay (rows inv) (cd_client s)) 1).
Proof.
  intros Hschema. unfold late_run. rewrite Hschema. cbn [negb].
  pose proof (strict_dates_parse_spec (rows inv)) as Hsd.
  pose proof (raw_paid_nil (rows inv)) as Hpn.
  pose proof (raw_late_stats_nil (rows inv)) as Hln.
  pose proof (raw_late_stats_elem (rows inv)) as Hle.
  assert (Hbad : (exists i, i ∈ rows inv
                   /\ (raw_issue_date i = BadDate \/ raw_due_date i = BadDate))
                 <-> ~ dates_parse (rows inv)).
  { split.
    - intros (i & Hi & Hb) Hd. destruct (Hd i Hi) as [H1 H2]. tauto.
    - intros Hnd. rewrite <- Hsd in Hnd. apply not_true_is_false in Hnd.
      apply forallb_false_elem in Hnd as (i & Hi & Hfi). exists i. split; [exact Hi|].
      destruct (raw_issue_date i), (raw_due_date i); simpl in Hfi;
        try discriminate; auto. }
  destruct (strict_dates_parse (rows inv)) eqn:Hs; cbn [negb].
  - assert (Hd : dates_parse (rows inv)) by (apply Hsd; reflexivity).
    destruct (raw_paid (rows inv)) as [|p ps] eqn:Hpaid.
    + split; [|split; [|split]].
      * split; [discriminate|]. intros Hb. apply Hbad in Hb. tauto.
      * split; [|reflexivity]. intros _. split; [exact Hd|]. apply Hpn. reflexivity.
      * split; [discriminate|]. intros (_ & (i & Hi & Hp) & _). exfalso.
        apply Hp. apply (proj1 Hpn eq_refl i Hi).
      * discriminate.
    + assert (Hsome : exists i, i ∈ rows inv /\ raw_paid_date i <> None).
      { destruct (decide (Forall (fun i => raw_paid_date i = None) (rows inv)))
          as [Hall|Hex].
        - rewrite Forall_forall in Hall. apply Hpn in Hall. discriminate.
        - apply not_Forall_Exists in Hex; [|intros i; apply _].
          apply Exists_exists in Hex as (i & Hi & Hp). exists i. auto. }
      destruct (late_stats (raw_delays (p :: ps))) as [|s ss] eqn:Hls.
      * split; [|split; [|split]].
        -- split; [discriminate|]. intros Hb. apply Hbad in Hb. tauto.
        -- split; [discriminate|]. intros [_ Hnone]. apply Hpn in Hnone. discriminate.
        -- split; [|reflexivity]. intros _. split; [exact Hd|].
           split; [exact Hsome|]. apply Hln. reflexivity.
        -- discriminate.
      * split; [|split; [|split]].
        -- split; [discriminate|]. intros Hb. apply Hbad in Hb. tauto.
        -- split; [discriminate|]. intros [_ Hnone]. apply Hpn in Hnone. discriminate.
        -- split; [discriminate|]. intros (_ & _ & Hall). apply Hln in Hall.
           discriminate.
        -- intros stats [= <-]. split; [exact Hd|]. split; [discriminate|].
           intros s' Hs'.
           assert (Hs0 : exists s0,
                     s' = mkClientDelay (cd_client s0) (round_to (delay_days s0) 1)
                     /\ s0 ∈ s :: ss).
           { change (map ?f ?l) with (f <$> l) in Hs'.
             apply elem_of_cons in Hs' as [->|Hs'].
             - exists s. split; [reflexivity|left].
             - apply list_elem_of_fmap in Hs' as (s0 & -> & Hs0).
               exists s0. split; [reflexivity|right; exact Hs0]. }
           destruct Hs0 as (s0 & -> & Hs0).
           apply Hle in Hs0 as (Hc & Hmean & Hpos). simpl.
           rewrite Hmean in *. auto.
  - assert (Hnd : ~ dates_parse (rows inv)).
    { intros Hd. apply Hsd in Hd. congruence. }
    split; [|split; [|split]].
    + split; [intros _; apply Hbad, Hnd|reflexivity].
    + split; [discriminate|]. intros [Hd _]. tauto.
    + split; [discriminate|]. intros [Hd _]. tauto.
    + discriminate.
Qed.

Lemma late_run_outcomes_sample :
  issubset required_invoice_cols (columns sample_raw_invoices) = true
  /\ (late_run (Some sample_raw_invoices) = LateRaised
      <-> exists i, i ∈ rows sample_raw_invoices
                    /\ (raw_issue_date i = BadDate \/ raw_due_date i = BadDate)).
Proof.
  assert (Hs : issubset required_invoice_cols (columns sample_raw_invoices) = true)
    by reflexivity.
  split; [exact Hs|].
  exact (proj1 (late_run_outcomes sample_raw_invoices Hs)).
Defined.
